(** * pr-retry: the retry orchestrator of [src/index.js]

    A shallow embedding of [retrier], of its inner loop [subject_caller], of
    the built-in policy [constant_timer_retry] and of the registry
    [retrier.retry_fn], followed by the properties the specification states
    about them.

    Modelling conventions.
    - A JavaScript number is [NaN], an infinity, or a finite double, kept as
      the rational it is ([-0] is identified with [0]).  The program applies
      [Math.floor], [!= 0] and [-= 1] to numbers; the first two are exact
      and the third rounds its result to the nearest double, as the
      language does, which shows from 2^53 on.
    - An object [VObj] is a plain object, the finite map of its own
      enumerable properties.  A read of one of its properties finds these;
      the members it inherits are left out of the reads of a parameter
      object, and primitives and functions are taken to have no
      properties.  The read of a policy in the registry does see the names
      the registry object inherits.  The order of the keys is not kept: the
      program reads [Object.keys(o)[0]] only where [o] has one key.
    - The subject and a caller-supplied controller are functions of the
      caller's state [U].  A call of one returns a promise, observed once
      it has settled ([Fulfilled] or [Rejected]) or as [Pending] when it
      never does, or throws ([Thrown]).
    - The closure returned by [constant_timer_retry] keeps its variables in an
      environment allocated in a store, so that two closures, or two uses of
      one closure, alias exactly as in the program.
    - The world carries a log of the subject invocations and of the timers
      set.  The log is instrumentation: no definition reads it. *)

From Stdlib Require Import QArith Qround Zquot Qreduction.
From stdpp Require Import gmap strings list fin_maps.

#[local] Set Warnings "-register-all".
#[local] Open Scope Z_scope.
#[local] Open Scope nat_scope.

(** ** Numbers *)

Inductive number :=
| NaN
| Infinity (negative : bool)
| Finite (q : Q).

(** The number written as the integer literal [z]. *)
Definition of_Z (z : Z) : number := Finite (inject_Z z).

(** [Math.floor]. *)
Definition Math_floor (n : number) : number :=
  match n with
  | Finite q => of_Z (Qfloor q)
  | _ => n
  end.

(** [n != 0] on numbers: [NaN] and the infinities differ from zero. *)
Definition num_ne0 (n : number) : bool :=
  match n with
  | Finite q => negb (Qeq_bool q 0)
  | _ => true
  end.

(** *** Rounding to a double

    For positive integers [n] and [d], the double nearest to [n / d]:
    53 significant bits, ties to the even significand, exponents as in
    binary64. *)

(** [2 ^ e <= n / d]. *)
Definition reaches (n d e : Z) : bool :=
  (d * 2 ^ Z.max 0 e <=? n * 2 ^ Z.max 0 (- e))%Z.

(** The integer part of the binary logarithm of [n / d]. *)
Definition exponent (n d : Z) : Z :=
  let k := (Z.log2 n - Z.log2 d)%Z in
  if reaches n d k then k else (k - 1)%Z.

(** The integer nearest to [a / b], the even one of two that are equally
    near. *)
Definition nearest_even (a b : Z) : Z :=
  let k := (a / b)%Z in
  let r := (a mod b)%Z in
  if (2 * r <? b)%Z then k
  else if (b <? 2 * r)%Z then (k + 1)%Z
  else if Z.even k then k else (k + 1)%Z.

(** The nearest double, or [None] when it is an infinity.  [e] is the
    exponent of the last significant bit. *)
Definition round_magnitude (n d : Z) : option Q :=
  let e := Z.max (exponent n d - 52) (-1074) in
  let m := nearest_even (n * 2 ^ Z.max 0 (- e)) (d * 2 ^ Z.max 0 e) in
  if (2 ^ 1024 <=? m * 2 ^ e)%Z then None
  else Some (Qred (m * 2 ^ Z.max 0 e # Z.to_pos (2 ^ Z.max 0 (- e)))).

Definition round_double (q : Q) : number :=
  match Qnum q with
  | Z0 => Finite 0
  | Zpos n =>
      match round_magnitude (Zpos n) (Zpos (Qden q)) with
      | Some r => Finite r
      | None => Infinity false
      end
  | Zneg n =>
      match round_magnitude (Zpos n) (Zpos (Qden q)) with
      | Some r => Finite (- r)
      | None => Infinity true
      end
  end.

(** [n - 1], as in [retries_remaining -= 1]: the difference, rounded. *)
Definition num_sub1 (n : number) : number :=
  match n with
  | Finite q => round_double (q - 1)
  | _ => n
  end.

(** [n < 0]. *)
Definition num_negative (n : number) : bool :=
  match n with
  | NaN => false
  | Infinity negative => negative
  | Finite q => match (q ?= 0)%Q with Lt => true | _ => false end
  end.

(** Rounding toward zero, the operation the specification names for the
    constructor's inputs; the program itself never calls it. *)
Definition truncate_toward_zero (q : Q) : Z :=
  (Qnum q ÷ Zpos (Qden q))%Z.

(** A rational with a fractional part. *)
Definition fractional (q : Q) : bool :=
  negb (Qnum q mod Zpos (Qden q) =? 0)%Z.

(** ** Exceptions and completions *)

Inductive exn :=
| NoSuchPredefined (name : string)                     (* line 32 *)
| IncorrectType (name key actual expected : string)    (* line 41 *)
| MissingProperty (name key : string)                  (* line 46 *)
| InvalidParameters                                    (* line 52 *)
| TypeError.                       (* raised by the language itself *)

(** The text given to [new Error(...)]; a [TypeError]'s text is the
    engine's. *)
Definition message (e : exn) : option string :=
  match e with
  | NoSuchPredefined name =>
      Some ("No such predefined retry promise function: " +:+ name)
  | IncorrectType name key actual expected =>
      Some (name +:+ "." +:+ key +:+ " is incorrect type: " +:+ actual
              +:+ " instead of " +:+ expected)
  | MissingProperty name key =>
      Some (name +:+ " is missing a property: " +:+ key)
  | InvalidParameters =>
      Some "Invalid parameters for retry promise function"
  | TypeError => None
  end.

(** The names every object inherits in a standard realm, those of the
    properties of [Object.prototype]. *)
Definition Object_prototype_keys : list string :=
  [ "constructor"; "hasOwnProperty"; "isPrototypeOf"; "propertyIsEnumerable";
    "toLocaleString"; "toString"; "valueOf"; "__proto__";
    "__defineGetter__"; "__defineSetter__";
    "__lookupGetter__"; "__lookupSetter__" ].

Definition inherited (name : string) : bool :=
  existsb (String.eqb name) Object_prototype_keys.

(** How a piece of the program completes: normally, by throwing an error of
    its own or of the language, or by letting through a value that code of
    the caller threw. *)
Inductive completion (X A : Type) :=
| Normal (a : A)
| Throw (e : exn)
| Raise (x : X).
Arguments Normal {X A} a.
Arguments Throw {X A} e.
Arguments Raise {X A} x.

#[global] Instance completion_ret {X} : MRet (completion X) := @Normal X.
#[global] Instance completion_bind {X} : MBind (completion X) :=
  fun A B k m =>
    match m with
    | Normal a => k a
    | Throw e => Throw e
    | Raise x => Raise x
    end.

Section Model.
Context {U V E : Type}.

(** ** Promises, functions and values *)

(** What a call that is to return a promise gives: a promise, seen as
    [Fulfilled] or [Rejected] once it has settled and as [Pending] when it
    never does, or no promise at all, the call having thrown ([Thrown]). *)
Inductive promise (A : Type) :=
| Fulfilled (a : A)
| Rejected (r : E)
| Pending
| Thrown (r : E).
#[global] Arguments Fulfilled {A} a.
#[global] Arguments Rejected {A} r.
#[global] Arguments Pending {A}.
#[global] Arguments Thrown {A} r.

(** A controller is either a function of the caller, acting on the
    caller's state, or the arrow function of line 74 closed over the
    environment at [env]. *)
Inductive func :=
| UserFn (d : E -> U -> promise unit * U)
| TimerRetry (env : nat).

Inductive value :=
| VUndefined
| VNull
| VBool (b : bool)
| VNum (n : number)
| VStr (s : string)
| VObj (props : gmap string value)
| VFun (f : func).

Definition typeof (v : value) : string :=
  match v with
  | VUndefined => "undefined"
  | VNull | VObj _ => "object"
  | VBool _ => "boolean"
  | VNum _ => "number"
  | VStr _ => "string"
  | VFun _ => "function"
  end.

(** The conversion to boolean that [if (v)] performs. *)
Definition truthy (v : value) : bool :=
  match v with
  | VUndefined | VNull => false
  | VBool b => b
  | VNum NaN => false
  | VNum n => num_ne0 n
  | VStr s => negb (String.eqb s "")
  | VObj _ | VFun _ => true
  end.

(** The own property [key] of [v], if [v] is an object that has it. *)
Definition own_property (v : value) (key : string) : option value :=
  match v with
  | VObj props => props !! key
  | _ => None
  end.

(** [v[key]]: reading a property of [undefined] or [null] throws, a
    property that is not there reads as [undefined]. *)
Definition get_prop (v : value) (key : string) : completion E value :=
  match v with
  | VUndefined | VNull => Throw TypeError
  | _ => Normal (default VUndefined (own_property v key))
  end.

(** ** The world *)

Record timer_env := {
  x_ms_between_retries : number;
  n_retries : number;
  retries_remaining : number
}.

Inductive event :=
| Attempt (outcome : promise V)     (* the subject was invoked *)
| TimeoutSet (ms : number).         (* [setTimeout(_, ms)] *)

Record world := {
  user : U;
  store : list timer_env;
  log : list event
}.

Definition subject := U -> promise V * U.

(** ** [constant_timer_retry], lines 70-89 *)

(** What a call of the arrow function of line 74 has done by the time it
    returns its promise: settled it, or set the timer that will. *)
Inductive started :=
| Settled (p : promise unit)
| TimerSet.

(** Lines 75-87, at the call, in environment [l]: the counter is tested and
    either a timer is set or the promise is rejected.  The counter is left
    as it is.  No closure of the program refers to an environment that was
    not allocated. *)
Definition timer_retry_body (l : nat) (err : E) (w : world)
  : started * world :=
  match store w !! l with
  | None => (Settled Pending, w)
  | Some env =>
      if num_ne0 (retries_remaining env) then
        (TimerSet,
         {| user := user w;
            store := store w;
            log := log w ++ [TimeoutSet (x_ms_between_retries env)] |})
      else (Settled (Rejected err), w)
  end.

(** Lines 78-82, when the timer fires: the counter is decremented and the
    promise is fulfilled. *)
Definition timeout_callback (l : nat) (w : world) : world :=
  match store w !! l with
  | None => w
  | Some env =>
      {| user := user w;
         store :=
           <[l := {| x_ms_between_retries := x_ms_between_retries env;
                     n_retries := n_retries env;
                     retries_remaining := num_sub1 (retries_remaining env) |}]>
             (store w);
         log := log w |}
  end.

Definition constant_timer_retry (x_ms_between_retries_ n_retries_ : number)
    (w : world) : func * world :=
  let x_ms_between_retries := Math_floor x_ms_between_retries_ in
  let n_retries := Math_floor n_retries_ in
  let retries_remaining := n_retries in
  (TimerRetry (length (store w)),
   {| user := user w;
      store := store w ++ [ {| x_ms_between_retries := x_ms_between_retries;
                              n_retries := n_retries;
                              retries_remaining := retries_remaining |} ];
      log := log w |}).

(** ** The registry [retrier.retry_fn], lines 91-99 *)

(** An entry: the constructor, applied to the positional arguments, and
    the declared parameters, each a one-key object [{name: type}] in the
    program and a pair here. *)
Record policy := {
  fn : list value -> world -> func * world;
  params : list (string * string)
}.

(** The coercion [Math.floor] applies to a positional argument.  [retrier]
    only passes values whose [typeof] is ["number"] (line 40), on which it
    is the identity; an absent argument is [undefined], which coerces to
    [NaN].  The coercion of other values is not needed here and is left
    as [NaN]. *)
Definition arg_number (v : option value) : number :=
  match v with
  | Some (VNum n) => n
  | _ => NaN
  end.

Definition retry_fn : gmap string policy :=
  {[ "constant_timer_retry" :=
       {| fn := fun args =>
                  constant_timer_retry (arg_number (args !! 0))
                                       (arg_number (args !! 1));
          params := [ ("x_ms_between_retries", "number");
                      ("n_retries", "number") ] |} ]}.

(** ** [retrier], lines 23-67 *)

(** The [forEach] of lines 35-48 over the declared parameters, pushing on
    [arg_vals]; [args] is [retry_controller[Object.keys(retry_controller)[0]]]. *)
Fixpoint collect_args (predef_retry_fnname : string) (args : value)
    (declared : list (string * string)) (arg_vals : list value)
  : completion E (list value) :=
  match declared with
  | [] => Normal arg_vals
  | (key, expected_keytype) :: rest =>
      v ← get_prop args key;
      if truthy v then
        let forvalidation_keytype := typeof v in
        if negb (String.eqb forvalidation_keytype expected_keytype) then
          Throw (IncorrectType predef_retry_fnname key
                               forvalidation_keytype expected_keytype)
        else collect_args predef_retry_fnname args rest (arg_vals ++ [v])
      else Throw (MissingProperty predef_retry_fnname key)
  end.

(** Lines 26-53: the controller function [retrier] will use.  The cases
    are those of [typeof retry_controller]: ["function"], then ["object"]
    with [Object.keys(retry_controller).length == 1], which throws on
    [null], then everything else.  The read of line 31 finds the entries of
    [registry] and, for the other names, what the registry object
    inherits: a name of [Object_prototype_keys] passes the test of line 31
    with a function or object that has no [params]. *)
Definition validate (registry : gmap string policy)
    (retry_controller : value) (w : world) : completion E (func * world) :=
  match retry_controller with
  | VFun f => Normal (f, w)
  | VNull => Throw TypeError                   (* [Object.keys(null)] *)
  | VObj props =>
      match map_to_list props with
      | [(predef_retry_fnname, args)] =>
          match registry !! predef_retry_fnname with
          | None =>
              if inherited predef_retry_fnname
              then Throw TypeError           (* line 35: [.params] is undefined *)
              else Throw (NoSuchPredefined predef_retry_fnname)
          | Some entry =>
              arg_vals ← collect_args predef_retry_fnname args
                                      (params entry) [];
              Normal (fn entry arg_vals w)
          end
      | _ => Throw InvalidParameters
      end
  | _ => Throw InvalidParameters
  end.

(** A controller called and its promise awaited: nothing else happens
    until the promise settles, so that a timer the call set is the next
    thing to fire. *)
Definition call (f : func) (err : E) (w : world) : promise unit * world :=
  match f with
  | UserFn d =>
      let '(p, u) := d err (user w) in
      (p, {| user := u; store := store w; log := log w |})
  | TimerRetry l =>
      match timer_retry_body l err w with
      | (Settled p, w1) => (p, w1)
      | (TimerSet, w1) => (Fulfilled tt, timeout_callback l w1)
      end
  end.

Definition invoke (subject_promise_fn : subject) (w : world)
  : promise V * world :=
  let '(p, u) := subject_promise_fn (user w) in
  (p, {| user := u; store := store w; log := log w ++ [Attempt p] |}).

(** Lines 57-65.  [fuel] bounds the number of attempts observed; a chain
    that has not settled within them is [Pending].  A subject that throws
    makes this call of [subject_caller] throw; where the call is the one of
    line 62, inside the callback of [.then], the throw rejects the promise.
    A controller that throws does so inside the callback of [.catch], which
    rejects the promise as well. *)
Fixpoint subject_caller (subject_promise_fn : subject)
    (retry_controller_fn : func) (fuel : nat) (w : world)
  : promise V * world :=
  match fuel with
  | O => (Pending, w)
  | S fuel =>
      let '(p, w1) := invoke subject_promise_fn w in
      match p with
      | Fulfilled v => (Fulfilled v, w1)
      | Pending => (Pending, w1)
      | Thrown e => (Thrown e, w1)
      | Rejected err =>
          let '(d, w2) := call retry_controller_fn err w1 in
          match d with
          | Fulfilled _ =>
              let '(p', w3) :=
                subject_caller subject_promise_fn retry_controller_fn fuel w2 in
              (match p' with Thrown e => Rejected e | _ => p' end, w3)
          | Rejected err' | Thrown err' => (Rejected err', w2)
          | Pending => (Pending, w2)
          end
      end
  end.

(** Line 66: [retrier] returns the promise of the first call of
    [subject_caller], or throws what that call throws. *)
Definition returned (p : promise V) : completion E (promise V) :=
  match p with
  | Thrown e => Raise e
  | _ => Normal p
  end.

Definition retrier (registry : gmap string policy) (fuel : nat)
    (subject_promise_fn : subject) (retry_controller : value) (w : world)
  : completion E (promise V) * world :=
  match validate registry retry_controller w with
  | Throw e => (Throw e, w)
  | Raise x => (Raise x, w)
  | Normal (retry_controller_fn, w1) =>
      let '(p, w2) :=
        subject_caller subject_promise_fn retry_controller_fn fuel w1 in
      (returned p, w2)
  end.

End Model.

(** ** Observations on runs *)

Section Observations.
Context {U V E : Type}.
Abbreviation world := (@world U V E).
Abbreviation subject := (@subject U V E).
Abbreviation func := (@func U E).
Abbreviation value := (@value U E).
Abbreviation event := (@event V E).

(** How many times the log records an invocation of the subject. *)
Fixpoint attempts (l : list event) : nat :=
  match l with
  | [] => 0
  | Attempt _ :: l => S (attempts l)
  | TimeoutSet _ :: l => attempts l
  end.

(** The delays of the timers the log records, oldest first. *)
Fixpoint timers (l : list event) : list number :=
  match l with
  | [] => []
  | Attempt _ :: l => timers l
  | TimeoutSet ms :: l => ms :: timers l
  end.

(** The caller's state after [k] invocations of the subject and nothing
    else, and what invocation number [k] (counted from 0) then yields. *)
Fixpoint state_after (s : subject) (k : nat) (u : U) : U :=
  match k with
  | O => u
  | S k => state_after s k (s u).2
  end.

Definition outcome_at (s : subject) (k : nat) (u : U) : promise V :=
  (s (state_after s k u)).1.

(** [k] rounds in which the subject fails and the controller proceeds. *)
Fixpoint rounds (s : subject) (f : func) (k : nat) (w : world)
  : option world :=
  match k with
  | O => Some w
  | S k =>
      match invoke s w with
      | (Rejected err, w1) =>
          match call f err w1 with
          | (Fulfilled _, w2) => rounds s f k w2
          | _ => None
          end
      | _ => None
      end
  end.

(** One controller called with each reason in turn. *)
Fixpoint call_each (f : func) (errs : list E) (w : world)
  : list (promise unit) * world :=
  match errs with
  | [] => ([], w)
  | err :: errs =>
      let '(d, w1) := call f err w in
      let '(ds, w2) := call_each f errs w1 in
      (d :: ds, w2)
  end.

(** Calls of the closure over [l] that overlap: each returns its promise
    before the timer of any of them fires, and then the timers of [m] of
    them fire. *)
Fixpoint start_each (l : nat) (errs : list E) (w : world)
  : list started * world :=
  match errs with
  | [] => ([], w)
  | err :: errs =>
      let '(d, w1) := timer_retry_body l err w in
      let '(ds, w2) := start_each l errs w1 in
      (d :: ds, w2)
  end.

Definition fire_each (l m : nat) (w : world) : world :=
  Nat.iter m (timeout_callback l) w.

(** What may happen to the world between two observations of it: a
    controller is called and its promise awaited; a call of a closure of
    [constant_timer_retry] runs up to the return of its promise, or a timer
    that such a call set fires, which is how calls overlap; the subject, or
    any other function of the caller, is invoked; a policy is constructed,
    by the caller or by [retrier] resolving a descriptor against the
    built-in registry; a whole chain of [subject_caller] runs.  [allowed]
    tells which controllers may take part. *)
Inductive happens (allowed : func -> Prop) : world -> world -> Prop :=
| happens_call f err w :
    allowed f -> happens allowed w (call f err w).2
| happens_body l err w :
    allowed (TimerRetry l) -> happens allowed w (timer_retry_body l err w).2
| happens_timeout l w :
    allowed (TimerRetry l) -> happens allowed w (timeout_callback l w)
| happens_invoke s w :
    happens allowed w (invoke s w).2
| happens_construct x n w :
    happens allowed w (constant_timer_retry x n w).2
| happens_validate d w f w' :
    validate retry_fn d w = Normal (f, w') -> happens allowed w w'
| happens_run s f fuel w :
    allowed f -> happens allowed w (subject_caller s f fuel w).2.

(** ** Malformed descriptors, in the words of the specification *)

(** Neither a function nor a mapping with exactly one key. *)
Definition wrong_shape (d : value) : bool :=
  match d with
  | VFun _ => false
  | VObj props => negb (size props =? 1)
  | _ => true
  end.


(** What lines 37-44 accept for a declared parameter: a truthy own
    property of the declared type. *)
Definition accepted (args : value) (p : string * string) : bool :=
  match own_property args p.1 with
  | Some v => truthy v && String.eqb (typeof v) p.2
  | None => false
  end.

(** The values of the declared parameters, in declared order. *)
Definition declared_values (args : value) (declared : list (string * string))
  : list value :=
  (fun p => default VUndefined (own_property args p.1)) <$> declared.



(** ** The two ways of the program's own demonstration (lines 142, 145) *)

(** [{ constant_timer_retry: { x_ms_between_retries: x, n_retries: n } }],
    with further properties [extra] in the parameter object. *)
Definition descriptor_with (extra : gmap string value) (x n : value)
  : value :=
  VObj {[ "constant_timer_retry" :=
            VObj (<["x_ms_between_retries" := x]>
                    (<["n_retries" := n]> extra)) ]}.

Definition descriptor (x n : value) : value := descriptor_with ∅ x n.

(** [retrier(subject, constant_timer_retry(x, n))]. *)
Definition retrier_constant (registry : gmap string (@policy U V E))
    (fuel : nat) (s : subject) (x n : number) (w : world)
  : completion E (promise V) * world :=
  let '(f, w0) := constant_timer_retry x n w in
  retrier registry fuel s (VFun f) w0.

End Observations.

(** ** Sample callers *)

Module Sample.

(** The caller's state counts the invocations of the subject; reasons and
    values are the number of the invocation that produced them. *)
Definition always_fails : @subject nat nat nat :=
  fun u => (Rejected u, S u).

Definition fails_then_succeeds (k : nat) : @subject nat nat nat :=
  fun u => (if u <? k then Rejected u else Fulfilled u, S u).

(** A subject that fails [k] times and then throws instead of returning a
    promise. *)
Definition fails_then_throws (k : nat) : @subject nat nat nat :=
  fun u => (if u <? k then Rejected u else Thrown u, S u).

(** A retry count above 2^53 that is a double. *)
Definition beyond_exact : nat := Z.to_nat (2 ^ 53 + 2).

(** A controller of the caller that retries until the reason is 2 and then
    gives up with a reason of its own. *)
Definition until_two : @func nat nat :=
  UserFn (fun err u => (if err =? 2 then Rejected 7 else Fulfilled tt, u)).

Definition start : @world nat nat nat :=
  {| user := 0; store := []; log := [] |}.

(** The world after two failures that [until_two] let pass, after the
    third failure, and the parameter object of line 145 with a delay of
    100 and 3 retries. *)
Definition retried_twice : @world nat nat nat :=
  {| user := 2; store := [];
     log := [Attempt (Rejected 0); Attempt (Rejected 1)] |}.

Definition failed_thrice : @world nat nat nat :=
  {| user := 3; store := [];
     log := [Attempt (Rejected 0); Attempt (Rejected 1);
             Attempt (Rejected 2)] |}.

Definition hundred_three : gmap string (@value nat nat) :=
  {[ "constant_timer_retry" :=
       VObj {[ "x_ms_between_retries" := VNum (of_Z 100);
               "n_retries" := VNum (of_Z 3) ]} ]}.

Definition resolved_once : @func nat nat * @world nat nat nat :=
  constant_timer_retry (of_Z 100) (of_Z 3) start.

(** The world once a chain under the first controller has seen two
    attempts fail, and a second resolution made then. *)
Definition after_two_attempts : @world nat nat nat :=
  (subject_caller always_fails resolved_once.1 2 resolved_once.2).2.

Definition resolved_twice : @func nat nat * @world nat nat nat :=
  constant_timer_retry (of_Z 100) (of_Z 3) after_two_attempts.

End Sample.

(** ** What a run under the constant-delay controller logs *)

Section Traces.
Context {U V E : Type}.

(** The events of [k] attempts of the subject, each followed by a timer of
    [ms]: the attempts are those the subject makes from the state [u] when
    nothing else touches that state. *)
Fixpoint retry_events (s : @subject U V E) (ms : number) (k : nat) (u : U)
  : list (@event V E) :=
  match k with
  | O => []
  | S k => Attempt (s u).1 :: TimeoutSet ms :: retry_events s ms k (s u).2
  end.

End Traces.

(** ** The demonstration, lines 103-151 *)

Module Demo.

(** What [console.log] is given.  The numbers and the error a text embeds
    are kept beside the kind of the text, not formatted. *)
Inductive console_line :=
| TestResolves                       (* line 109 *)
| TestRejects (value : Q)            (* line 112 *)
| FinalValue (value : Q)             (* line 147 *)
| FinalGivenUp (num_retries : number) (err : string).   (* line 150 *)

(** The state of the demonstration: the values [Math.random()] returns, how
    many of them have been drawn, and the console. *)
Record state := {
  random : nat -> Q;
  drawn : nat;
  console : list console_line
}.

(** The double written [0.1]. *)
Definition one_tenth : Q := 3602879701896397 # 36028797018963968.

(** Lines 105-116; the reason of a rejection is the message of the
    [Error]. *)
Definition for_retrying : @subject state Q string :=
  fun st =>
    let value := random st (drawn st) in
    match (value ?= one_tenth)%Q with
    | Lt =>
        (Fulfilled value,
         {| random := random st; drawn := S (drawn st);
            console := console st ++ [TestResolves] |})
    | _ =>
        (Rejected "Random resolve fail.",
         {| random := random st; drawn := S (drawn st);
            console := console st ++ [TestRejects value] |})
    end.

Definition time_between : number := of_Z 2000.
Definition num_retries : number := of_Z 3.

Definition print (line : console_line) (w : @world state Q string)
  : @world state Q string :=
  {| user := {| random := random (user w); drawn := drawn (user w);
                console := console (user w) ++ [line] |};
     store := store w;
     log := log w |}.

(** Lines 145-151: the call of [retrier] and the two handlers on its
    promise; [err.toString()] is the message after ["Error: "]. *)
Definition main (fuel : nat) (w : @world state Q string)
  : completion string (promise Q) * @world state Q string :=
  let '(c, w1) :=
    retrier retry_fn fuel for_retrying
      (descriptor (VNum time_between) (VNum num_retries)) w in
  match c with
  | Normal (Fulfilled value) => (c, print (FinalValue value) w1)
  | Normal (Rejected err) =>
      (c, print (FinalGivenUp num_retries ("Error: " +:+ err)) w1)
  | _ => (c, w1)
  end.

(** The lines the attempts print when the first [k] draws are rejected. *)
Definition rejections (random : nat -> Q) (k : nat) : list console_line :=
  (fun i => TestRejects (random i)) <$> seq 0 k.

Definition boot (random : nat -> Q) : @world state Q string :=
  {| user := {| random := random; drawn := 0; console := [] |};
     store := [];
     log := [] |}.

End Demo.

(** ** Further sample callers *)

Module Cases.

(** A controller of the caller that always proceeds. *)
Definition always_proceeds : @func nat nat :=
  UserFn (fun _ u => (Fulfilled tt, u)).

(** A registry with one more policy, which declares no parameter. *)
Definition two_policies : gmap string (@policy nat nat nat) :=
  <[ "forever" := {| fn := fun _ w => (always_proceeds, w); params := [] |} ]>
    retry_fn.

(** Draws of which the third is the first below 0.1, and draws that never
    are. *)
Definition third_draw_low : nat -> Q :=
  fun i => if i =? 2 then 1 # 20 else 1 # 2.

Definition all_draws_high : nat -> Q := fun _ => 1 # 2.

(** The entry of the built-in policy, and parameter objects for it. *)
Definition constant_timer_entry : @policy nat nat nat :=
  {| fn := fun args =>
             constant_timer_retry (arg_number (args !! 0))
                                  (arg_number (args !! 1));
     params := [ ("x_ms_between_retries", "number");
                 ("n_retries", "number") ] |}.

Definition hundred_and (n : @value nat nat) : gmap string (@value nat nat) :=
  {[ "x_ms_between_retries" := VNum (of_Z 100); "n_retries" := n ]}.

(** The world once two calls of the controller [constant_timer_retry(20, 1)]
    have returned their promises and no timer has fired yet. *)
Definition two_calls_started : @world nat nat nat :=
  {| user := 0;
     store := [ {| x_ms_between_retries := of_Z 20;
                   n_retries := of_Z 1;
                   retries_remaining := of_Z 1 |} ];
     log := [TimeoutSet (of_Z 20); TimeoutSet (of_Z 20)] |}.

End Cases.

(** * Properties *)

(** ** Numbers *)

Lemma Math_floor_of_Z (z : Z) : Math_floor (of_Z z) = of_Z z.
Proof. unfold Math_floor, of_Z. by rewrite Qfloor_Z. Qed.

Lemma Math_floor_idem (n : number) : Math_floor (Math_floor n) = Math_floor n.
Proof. destruct n; try done. apply Math_floor_of_Z. Qed.

Lemma num_ne0_of_Z (z : Z) : num_ne0 (of_Z z) = negb (z =? 0)%Z.
Proof.
  unfold num_ne0, of_Z, Qeq_bool, inject_Z. simpl.
  rewrite Z.mul_1_r. by destruct z.
Qed.

(** *** Rounding *)

Section Rounding_to_double.
#[local] Open Scope Z_scope.

Lemma Qred_inject_Z (z : Z) : Qred (inject_Z z) = inject_Z z.
Proof.
  unfold Qred, inject_Z.
  pose proof (Z.ggcd_gcd z 1) as Hg.
  pose proof (Z.ggcd_correct_divisors z 1) as Hd.
  destruct (Z.ggcd z 1) as [g [a b]]. simpl in *.
  rewrite Z.gcd_1_r in Hg. subst g. destruct Hd as [Ha Hb].
  rewrite !Z.mul_1_l in *. by subst.
Qed.

Lemma reaches_shift (n d e t : Z) :
  0 <= t -> 0 <= e + t ->
  reaches n d e = true <-> d * 2 ^ (e + t) <= n * 2 ^ t.
Proof.
  intros Ht Het. unfold reaches. rewrite Z.leb_le.
  destruct (Z.le_gt_cases 0 e) as [He|He].
  - rewrite (Z.max_r 0 e), (Z.max_l 0 (- e)) by lia.
    rewrite Z.pow_0_r, Z.mul_1_r, Z.pow_add_r, Z.mul_assoc by lia.
    apply Z.mul_le_mono_pos_r. by apply Z.pow_pos_nonneg.
  - rewrite (Z.max_l 0 e), (Z.max_r 0 (- e)) by lia.
    rewrite Z.pow_0_r, Z.mul_1_r.
    assert (2 ^ t = 2 ^ (- e) * 2 ^ (e + t)) as ->
      by (rewrite <- Z.pow_add_r by lia; f_equal; lia).
    rewrite Z.mul_assoc.
    apply Z.mul_le_mono_pos_r. apply Z.pow_pos_nonneg; lia.
Qed.

Lemma reaches_mono (n d e e' : Z) :
  0 <= d -> e <= e' -> reaches n d e' = true -> reaches n d e = true.
Proof.
  intros Hd Hle.
  rewrite (reaches_shift n d e' (Z.max 0 (- e))) by lia.
  rewrite (reaches_shift n d e (Z.max 0 (- e))) by lia.
  intros H. etrans; [|exact H].
  apply Z.mul_le_mono_nonneg_l; [done|].
  apply Z.pow_le_mono_r; lia.
Qed.

Lemma reaches_exponent (n d : Z) :
  0 < n -> 0 < d -> reaches n d (exponent n d) = true.
Proof.
  intros Hn Hd. unfold exponent.
  destruct (reaches n d (Z.log2 n - Z.log2 d)) eqn:Hk; [done|].
  set (k := Z.log2 n - Z.log2 d - 1).
  pose proof (Z.log2_nonneg n). pose proof (Z.log2_nonneg d).
  apply (reaches_shift n d k (Z.log2 d + 1)); [lia | lia |].
  replace (k + (Z.log2 d + 1)) with (Z.log2 n) by lia.
  destruct (Z.log2_spec n Hn) as [Hn1 _].
  destruct (Z.log2_spec d Hd) as [_ Hd2].
  replace (Z.succ (Z.log2 d)) with (Z.log2 d + 1) in Hd2 by lia.
  assert (0 < 2 ^ Z.log2 n) by (by apply Z.pow_pos_nonneg).
  assert (0 < 2 ^ (Z.log2 d + 1)) by (apply Z.pow_pos_nonneg; lia).
  nia.
Qed.

Lemma exponent_nonneg (n d : Z) : 0 < d -> d <= n -> 0 <= exponent n d.
Proof.
  intros Hd Hle. unfold exponent.
  pose proof (Z.log2_le_mono d n Hle).
  destruct (reaches n d (Z.log2 n - Z.log2 d)) eqn:Hk; [lia|].
  enough (Z.log2 n - Z.log2 d <> 0) by lia. intros H0.
  rewrite H0 in Hk. unfold reaches in Hk.
  change (Z.max 0 (- 0)) with 0 in Hk. change (Z.max 0 0) with 0 in Hk.
  rewrite Z.pow_0_r, !Z.mul_1_r in Hk. apply Z.leb_gt in Hk. lia.
Qed.

Lemma nearest_even_lower (a b : Z) : 0 < b -> a / b <= nearest_even a b.
Proof.
  intros Hb. unfold nearest_even.
  destruct (2 * (a mod b) <? b); [lia|].
  destruct (b <? 2 * (a mod b)); [lia|].
  destruct (Z.even (a / b)); lia.
Qed.

(** The double nearest to a rational at least 1 is positive. *)
Lemma round_magnitude_positive (n d : Z) r :
  0 < d -> d <= n -> round_magnitude n d = Some r -> (0 < r)%Q.
Proof.
  intros Hd Hle. unfold round_magnitude.
  set (e := Z.max (exponent n d - 52) (-1074)).
  set (a := n * 2 ^ Z.max 0 (- e)). set (b := d * 2 ^ Z.max 0 e).
  destruct (2 ^ 1024 <=? nearest_even a b * 2 ^ e); [done|].
  intros [= <-]. rewrite Qred_correct.
  assert (0 < b) as Hb
    by (apply Z.mul_pos_pos; [done | apply Z.pow_pos_nonneg; lia]).
  assert (b <= a) as Hab.
  { apply Z.leb_le. change (reaches n d e = true).
    pose proof (exponent_nonneg n d Hd Hle).
    apply (reaches_mono n d e (exponent n d)); [lia | lia |].
    apply reaches_exponent; lia. }
  pose proof (nearest_even_lower a b Hb).
  assert (1 <= a / b) by (apply Z.div_le_lower_bound; lia).
  unfold Qlt. simpl. rewrite Z.mul_1_r.
  apply Z.mul_pos_pos; [lia | apply Z.pow_pos_nonneg; lia].
Qed.

Lemma round_double_negative (q : Q) :
  (q <= -1)%Q -> num_negative (round_double q) = true.
Proof.
  destruct q as [n d]. unfold Qle, round_double. cbn [Qnum Qden].
  intros Hq. destruct n as [|n|n]; [lia | lia |].
  destruct (round_magnitude (Z.pos n) (Z.pos d)) as [r|] eqn:Hr; [|done].
  apply round_magnitude_positive in Hr; [|lia|lia].
  assert (- r < 0)%Q as Hneg by (apply (Qopp_lt_compat 0 r); exact Hr).
  unfold num_negative. destruct (- r ?= 0)%Q eqn:Hcmp; [|done|].
  - apply Qeq_alt in Hcmp. rewrite Hcmp in Hneg. by apply Qlt_irrefl in Hneg.
  - apply Qgt_alt in Hcmp. destruct (Qlt_irrefl 0). by eapply Qlt_trans.
Qed.

(** Integers of magnitude at most 2^53 are doubles. *)
Lemma round_magnitude_exact (z : Z) :
  0 < z -> z <= 2 ^ 53 -> round_magnitude z 1 = Some (inject_Z z).
Proof.
  intros Hz Hle.
  destruct (Z.eq_dec z (2 ^ 53)) as [->|Hne]; [by vm_compute|].
  assert (z < 2 ^ 53) as Hlt by lia. clear Hle Hne.
  destruct (Z.log2_spec z Hz) as [Hl1 Hl2].
  pose proof (Z.log2_nonneg z) as Hl0.
  assert (Z.log2 z < 53) as Hl53 by (apply Z.log2_lt_pow2; lia).
  unfold round_magnitude.
  assert (exponent z 1 = Z.log2 z) as ->.
  { unfold exponent. change (Z.log2 1) with 0. rewrite Z.sub_0_r.
    unfold reaches. rewrite Z.max_r, Z.max_l by lia.
    rewrite Z.pow_0_r, Z.mul_1_r, Z.mul_1_l.
    by apply Z.leb_le in Hl1 as ->. }
  rewrite (Z.max_l (Z.log2 z - 52)) by lia.
  set (j := 52 - Z.log2 z).
  replace (- (Z.log2 z - 52)) with j by lia.
  rewrite (Z.max_r 0 j), (Z.max_l 0 (Z.log2 z - 52)) by lia.
  rewrite Z.pow_0_r, !Z.mul_1_r.
  assert (0 < 2 ^ j) as Hj by (apply Z.pow_pos_nonneg; lia).
  assert (nearest_even (z * 2 ^ j) 1 = z * 2 ^ j) as ->.
  { unfold nearest_even. rewrite Z.div_1_r, Z.mod_1_r. done. }
  assert (z * 2 ^ j * 2 ^ (Z.log2 z - 52) < 2 ^ 1024) as Hov.
  { destruct (Z.eq_dec j 0) as [Hj0|Hj0].
    - replace (Z.log2 z - 52) with 0 by lia. rewrite Hj0. simpl.
      assert (2 ^ 53 < 2 ^ 1024) by (by vm_compute). lia.
    - rewrite (Z.pow_neg_r 2 (Z.log2 z - 52)) by lia.
      rewrite Z.mul_0_r. by vm_compute. }
  apply Z.leb_gt in Hov as ->. f_equal.
  rewrite <- (Qred_inject_Z z). apply Qred_complete.
  unfold Qeq, inject_Z. simpl. rewrite Z2Pos.id by done. lia.
Qed.

Lemma round_double_exact (z : Z) :
  Z.abs z <= 2 ^ 53 -> round_double (inject_Z z) = of_Z z.
Proof.
  intros Hz. unfold round_double, of_Z. cbn [inject_Z Qnum Qden].
  destruct z as [|p|p]; [done | |].
  - by rewrite round_magnitude_exact by lia.
  - rewrite round_magnitude_exact by lia. done.
Qed.

End Rounding_to_double.

(** The decrement is exact from 2^53 down to -2^53. *)
Lemma num_sub1_of_Z (z : Z) :
  (- 2 ^ 53 < z <= 2 ^ 53)%Z -> num_sub1 (of_Z z) = of_Z (z - 1).
Proof.
  intros Hz. unfold num_sub1, of_Z.
  replace (inject_Z z - 1)%Q with (inject_Z (z - 1)).
  - apply round_double_exact. lia.
  - unfold inject_Z, Qminus, Qplus, Qopp. simpl. f_equal. lia.
Qed.

Lemma Qfloor_negative (q : Q) : (q < 0)%Q -> (Qfloor q < 0)%Z.
Proof.
  intros Hq. rewrite Zlt_Qlt.
  eapply Qle_lt_trans; [apply Qfloor_le | exact Hq].
Qed.

Lemma num_negative_Finite (q : Q) : num_negative (Finite q) = true <-> (q < 0)%Q.
Proof.
  unfold num_negative. rewrite Qlt_alt. destruct (q ?= 0)%Q; split; congruence.
Qed.

(** On integers and on non-negative inputs [Math.floor] rounds toward zero;
    on the other inputs it lands one below. *)
Lemma Qfloor_truncate (q : Q) :
  Qfloor q =
    (if fractional q && num_negative (Finite q)
     then truncate_toward_zero q - 1
     else truncate_toward_zero q)%Z.
Proof.
  destruct q as [n d]. unfold fractional, truncate_toward_zero, num_negative, Qcompare.
  cbn [Qfloor Qnum Qden]. rewrite Z.mul_1_r, Z.mul_0_l.
  pose proof (Z.div_mod n (Zpos d) ltac:(lia)) as Hd.
  pose proof (Z.mod_pos_bound n (Zpos d) ltac:(lia)) as Hb.
  destruct (Z.compare_spec n 0) as [-> | Hn | Hn]; rewrite ?andb_false_r.
  - done.
  - rewrite andb_true_r.
    destruct (Z.eqb_spec (n mod Zpos d) 0) as [H0 | H0]; cbn [negb].
    + apply Zquot.Zquot_unique_full with (r := 0%Z); [right|]; lia.
    + enough ((n / Zpos d + 1)%Z = (n ÷ Zpos d)%Z) by lia.
      apply Zquot.Zquot_unique_full with (r := (n mod Zpos d - Zpos d)%Z);
        [right|]; lia.
  - symmetry. apply Z.quot_div_nonneg; lia.
Qed.

Lemma iter_sub1_of_Z (k : nat) (z : Z) :
  (z <= 2 ^ 53)%Z -> (- 2 ^ 53 <= z - Z.of_nat k)%Z ->
  Nat.iter k num_sub1 (of_Z z) = of_Z (z - Z.of_nat k).
Proof.
  intros Hz. induction k as [|k IH]; intros Hk.
  - simpl. by rewrite Z.sub_0_r.
  - rewrite Nat.iter_succ, IH by lia. rewrite num_sub1_of_Z by lia.
    f_equal. lia.
Qed.

Lemma num_negative_ne0 (n : number) : num_negative n = true -> num_ne0 n = true.
Proof.
  destruct n as [|b|q]; try done.
  rewrite num_negative_Finite. intros Hq. unfold num_ne0.
  destruct (Qeq_bool q 0) eqn:Heq; [|done].
  apply Qeq_bool_eq in Heq. rewrite Heq in Hq. by apply Qlt_irrefl in Hq.
Qed.

(** Below zero the decrement stays below zero, rounded or not. *)
Lemma num_sub1_negative (n : number) :
  num_negative n = true -> num_negative (num_sub1 n) = true.
Proof.
  destruct n as [|b|q]; try done.
  rewrite num_negative_Finite. intros Hq. cbn [num_sub1].
  apply round_double_negative.
  assert (q - 1 < 0 - 1)%Q as H.
  { unfold Qminus. apply Qplus_lt_le_compat; [done | apply Qle_refl]. }
  by apply Qlt_le_weak.
Qed.

Lemma iter_sub1_stays_negative (k : nat) (n : number) :
  num_negative n = true -> num_negative (Nat.iter k num_sub1 n) = true.
Proof.
  intros Hn. induction k as [|k IH]; [done|].
  rewrite Nat.iter_succ. by apply num_sub1_negative.
Qed.

Lemma num_negative_floor (n : number) :
  num_negative n = true -> num_negative (Math_floor n) = true.
Proof.
  destruct n as [|b|q]; try done.
  rewrite num_negative_Finite. intros Hq%Qfloor_negative.
  unfold Math_floor, of_Z. rewrite num_negative_Finite.
  by rewrite <- (Zlt_Qlt _ 0).
Qed.

(** A counter that starts at [N] differs from zero during the first [N]
    decrements. *)
Lemma iter_sub1_positive (N i : nat) :
  (Z.of_nat N <= 2 ^ 53)%Z -> i < N ->
  num_ne0 (Nat.iter i num_sub1 (Math_floor (of_Z (Z.of_nat N)))) = true.
Proof.
  intros HN Hi. rewrite Math_floor_of_Z, iter_sub1_of_Z, num_ne0_of_Z by lia.
  destruct (Z.eqb_spec (Z.of_nat N - Z.of_nat i) 0); [lia | done].
Qed.

(** A counter that starts below zero never reaches zero. *)
Lemma iter_sub1_negative (k : nat) (n : number) :
  num_negative (Math_floor n) = true ->
  num_ne0 (Nat.iter k num_sub1 (Math_floor n)) = true.
Proof.
  intros Hn. by apply num_negative_ne0, iter_sub1_stays_negative.
Qed.

(** ** The loop *)

Section Loop.
Context {U V E : Type}.
Implicit Types (w : @world U V E) (s : @subject U V E) (f : @func U E).
Implicit Types (l k fuel : nat) (env : timer_env) (err r : E).

Lemma attempts_app (a b : list (@event V E)) :
  attempts (a ++ b) = attempts a + attempts b.
Proof. induction a as [|[] a IH]; simpl; lia. Qed.

Lemma timers_app (a b : list (@event V E)) :
  timers (a ++ b) = timers a ++ timers b.
Proof. induction a as [|[] a IH]; simpl; congruence. Qed.

Lemma state_after_succ s k (u : U) :
  state_after s (S k) u = (s (state_after s k u)).2.
Proof. revert u. induction k as [|k IH]; intros u; [done|]. apply IH. Qed.

Lemma invoke_eq s w :
  invoke s w =
    ((s (user w)).1,
     {| user := (s (user w)).2; store := store w;
        log := log w ++ [Attempt (s (user w)).1] |}).
Proof. unfold invoke. by destruct (s (user w)). Qed.

Lemma call_timer_proceeds l err w env :
  store w !! l = Some env ->
  num_ne0 (retries_remaining env) = true ->
  call (TimerRetry l) err w =
    (Fulfilled (),
     {| user := user w;
        store := <[l := {| x_ms_between_retries := x_ms_between_retries env;
                           n_retries := n_retries env;
                           retries_remaining :=
                             num_sub1 (retries_remaining env) |}]> (store w);
        log := log w ++ [TimeoutSet (x_ms_between_retries env)] |}).
Proof.
  intros Hl Hne. cbn [call]. unfold timer_retry_body. rewrite Hl, Hne.
  unfold timeout_callback. cbn [store user log]. by rewrite Hl.
Qed.

Lemma call_timer_aborts l err w env :
  store w !! l = Some env ->
  retries_remaining env = of_Z 0 ->
  call (TimerRetry l) err w = (Rejected err, w).
Proof.
  intros Hl Hz. cbn [call]. unfold timer_retry_body. by rewrite Hl, Hz.
Qed.

(** A settled chain stays as it is when more attempts are observed. *)
Lemma subject_caller_settled s f fuel fuel' w p w' :
  subject_caller s f fuel w = (p, w') ->
  p ≠ Pending ->
  fuel <= fuel' ->
  subject_caller s f fuel' w = (p, w').
Proof.
  revert fuel' w p w'. induction fuel as [|fuel IH]; intros fuel' w p w'; simpl.
  - intros [= <- <-]. done.
  - intros Hrun Hp Hle. destruct fuel' as [|fuel']; [lia|]. simpl.
    destruct (invoke s w) as [[v|err| |e] w1]; try done.
    destruct (call f err w1) as [[[]|err'| |err'] w2]; try done.
    destruct (subject_caller s f fuel w2) as [p' w3] eqn:Hrec.
    injection Hrun as <- <-.
    rewrite (IH fuel' w2 p' w3 Hrec); [done | | lia].
    intros ->. done.
Qed.

(** [k] proceeding rounds consume [k] attempts of the loop, and what the
    rest of the chain gives is what the whole chain gives; a throw of the
    subject after the first round is a rejection. *)
Lemma subject_caller_rounds s f k fuel w wk p w' :
  rounds s f k w = Some wk ->
  subject_caller s f fuel wk = (p, w') ->
  (forall e, p ≠ Thrown e) ->
  subject_caller s f (k + fuel) w = (p, w').
Proof.
  intros Hk Hrun Hp. revert w Hk. induction k as [|k IH]; intros w; simpl.
  - by intros [= ->].
  - destruct (invoke s w) as [[v|err| |e] w1]; try done.
    destruct (call f err w1) as [[[]|err'| |err'] w2]; try done.
    intros Hk. rewrite (IH w2 Hk). by destruct p; try done; destruct (Hp r).
Qed.

Lemma subject_caller_rounds_thrown s f k fuel w wk e w' :
  rounds s f k w = Some wk ->
  0 < k ->
  subject_caller s f fuel wk = (Thrown e, w') ->
  subject_caller s f (k + fuel) w = (Rejected e, w').
Proof.
  intros Hk Hpos Hrun. revert w Hk Hpos.
  induction k as [|k IH]; intros w; simpl; [lia|].
  destruct (invoke s w) as [[v|err| |e'] w1]; try done.
  destruct (call f err w1) as [[[]|err'| |err'] w2]; try done.
  intros Hk _. destruct k as [|k].
  - injection Hk as ->. simpl in *. by rewrite Hrun.
  - by rewrite (IH w2 Hk ltac:(lia)).
Qed.

(** A round that ends in an abort ends the chain with the reason of the
    abort. *)
Lemma subject_caller_abort s f fuel w err w1 err' w2 :
  invoke s w = (Rejected err, w1) ->
  call f err w1 = (Rejected err', w2) ->
  subject_caller s f (S fuel) w = (Rejected err', w2).
Proof. intros Hs Hf. simpl. by rewrite Hs, Hf. Qed.

Lemma subject_caller_success s f fuel w v w1 :
  invoke s w = (Fulfilled v, w1) ->
  subject_caller s f (S fuel) w = (Fulfilled v, w1).
Proof. intros Hs. simpl. by rewrite Hs. Qed.

(** While its counter differs from zero the constant-delay controller
    proceeds: after [k] failures the counter has been decremented [k]
    times, the subject has been invoked [k] times and [k] timers have
    been set. *)
Lemma timer_rounds s l k : forall w env,
  store w !! l = Some env ->
  (forall i, i < k ->
     num_ne0 (Nat.iter i num_sub1 (retries_remaining env)) = true) ->
  (forall i, i < k -> exists r, outcome_at s i (user w) = Rejected r) ->
  exists wk envk,
    rounds s (TimerRetry l) k w = Some wk
    /\ user wk = state_after s k (user w)
    /\ store wk !! l = Some envk
    /\ retries_remaining envk = Nat.iter k num_sub1 (retries_remaining env)
    /\ x_ms_between_retries envk = x_ms_between_retries env
    /\ attempts (log wk) = attempts (log w) + k
    /\ timers (log wk)
       = timers (log w) ++ replicate k (x_ms_between_retries env).
Proof.
  induction k as [|k IH]; intros w env Hl Hne Hfail.
  - exists w, env. simpl. rewrite app_nil_r. repeat split; auto with lia.
  - destruct (Hfail 0 ltac:(lia)) as [r Hr].
    unfold outcome_at in Hr. simpl in Hr.
    pose proof (invoke_eq s w) as Hinv. rewrite Hr in Hinv.
    set (w1 := {| user := (s (user w)).2; store := store w;
                  log := log w ++ [Attempt (Rejected r)] |}) in Hinv.
    pose proof (call_timer_proceeds l r w1 env Hl (Hne 0 ltac:(lia)))
      as Hcall.
    set (env' := {| x_ms_between_retries := x_ms_between_retries env;
                    n_retries := n_retries env;
                    retries_remaining := num_sub1 (retries_remaining env) |})
      in Hcall.
    set (w2 := {| user := user w1; store := <[l := env']> (store w1);
                  log := log w1 ++ [TimeoutSet (x_ms_between_retries env)] |})
      in Hcall.
    destruct (IH w2 env') as (wk & envk & Hk & Hu & Hs & Hc & Hx & Ha & Ht).
    + simpl. apply list_lookup_insert_eq. by eapply lookup_lt_Some.
    + intros i Hi. simpl. rewrite <- Nat.iter_succ_r. apply Hne. lia.
    + intros i Hi. destruct (Hfail (S i) ltac:(lia)) as [r' Hr']. by exists r'.
    + exists wk, envk. cbn [rounds]. rewrite Hinv, Hcall.
      repeat split; try done.
      * rewrite Hc. simpl. by rewrite <- Nat.iter_succ_r.
      * rewrite Ha. simpl. rewrite !attempts_app. simpl. lia.
      * rewrite Ht. simpl. rewrite !timers_app. simpl.
        by rewrite app_nil_r, <- app_assoc.
Qed.

End Loop.

(** ** The constant-delay policy under the loop *)

Section ConstantDelay.
Context {U V E : Type}.
Implicit Types (w : @world U V E) (s : @subject U V E).
Implicit Types (registry : gmap string (@policy U V E)).
Implicit Types (x n : number) (N K fuel : nat).

Lemma constant_timer_retry_env x n w :
  store (constant_timer_retry x n w).2 !! length (store w)
  = Some {| x_ms_between_retries := Math_floor x;
            n_retries := Math_floor n;
            retries_remaining := Math_floor n |}.
Proof. simpl. by rewrite lookup_app_r, Nat.sub_diag. Qed.

Lemma retrier_constant_eq registry fuel s x n w :
  retrier_constant registry fuel s x n w =
    let r := subject_caller s (TimerRetry (length (store w))) fuel
               (constant_timer_retry x n w).2 in
    (returned r.1, r.2).
Proof.
  unfold retrier_constant, retrier. simpl.
  by destruct (subject_caller _ _ _ _).
Qed.

Lemma always_fails_outcome s :
  (forall u, exists r, (s u).1 = Rejected r) ->
  forall i u, exists r, outcome_at s i u = Rejected r.
Proof. intros Hs i u. apply Hs. Qed.

(** C1, amended. With a constant-delay controller built for [N] retries,
    [N] at most 2^53, and a subject that fails on every attempt, [retrier]
    settles as soon as [N + 1] attempts are observed: it is rejected, the
    subject has been invoked exactly [N + 1] times, and the reason is the
    one of the last invocation. *)
Theorem always_failing_uses_every_retry registry s x N fuel w :
  (Z.of_nat N <= 2 ^ 53)%Z ->
  (forall u, exists r, (s u).1 = Rejected r) ->
  N < fuel ->
  exists r w',
    retrier_constant registry fuel s x (of_Z (Z.of_nat N)) w
    = (Normal (Rejected r), w')
    /\ attempts (log w') = attempts (log w) + (N + 1)
    /\ last (log w') = Some (Attempt (Rejected r))
    /\ outcome_at s N (user w) = Rejected r.
Proof.
  intros HN Hfail Hfuel. rewrite retrier_constant_eq.
  pose proof (constant_timer_retry_env x (of_Z (Z.of_nat N)) w) as Henv.
  set (w0 := (constant_timer_retry x (of_Z (Z.of_nat N)) w).2) in *.
  set (l := length (store w)) in *.
  destruct (timer_rounds s l N w0 _ Henv)
    as (wk & envk & Hk & Hu & Hs & Hc & _ & Ha & _).
  { intros i Hi. by apply iter_sub1_positive. }
  { intros i _. by apply always_fails_outcome. }
  cbn [retries_remaining] in Hc.
  rewrite Math_floor_of_Z, iter_sub1_of_Z, Z.sub_diag in Hc by lia.
  destruct (Hfail (user wk)) as [r Hr].
  pose proof (invoke_eq s wk) as Hinv. rewrite Hr in Hinv.
  eexists r, _. replace fuel with (N + S (fuel - S N)) by lia.
  erewrite subject_caller_rounds;
    [| exact Hk
     | eapply subject_caller_abort; [exact Hinv | by eapply call_timer_aborts]
     | done].
  cbn [fst snd returned]. repeat split; cbn [log].
  - rewrite attempts_app, Ha. simpl. lia.
  - apply last_snoc.
  - unfold outcome_at. change (user w) with (user w0). by rewrite <- Hu.
Qed.

(** C4. With a constant-delay controller built for no retry, a subject
    whose first attempt fails is invoked once and [retrier] is rejected
    with that failure; the only thing that happened is this one
    invocation, so no timer was set. *)
Theorem no_retry_aborts_at_once registry s x fuel w r :
  (s (user w)).1 = Rejected r ->
  0 < fuel ->
  exists w',
    retrier_constant registry fuel s x (of_Z 0) w = (Normal (Rejected r), w')
    /\ log w' = log w ++ [Attempt (Rejected r)].
Proof.
  intros Hr Hfuel. rewrite retrier_constant_eq.
  pose proof (constant_timer_retry_env x (of_Z 0) w) as Henv.
  set (w0 := (constant_timer_retry x (of_Z 0) w).2) in *.
  pose proof (invoke_eq s w0) as Hinv. change (user w0) with (user w) in Hinv.
  rewrite Hr in Hinv.
  destruct fuel as [|fuel]; [lia|]. eexists.
  erewrite subject_caller_abort;
    [| exact Hinv | by eapply call_timer_aborts; [exact Henv|]].
  done.
Qed.

(** C5, amended. With a constant-delay controller built for [N] retries,
    [N] at most 2^53, and a subject that fails [K <= N] times and then
    succeeds, [retrier] is fulfilled with the value of that success and the
    subject has been invoked exactly [K + 1] times. *)
Theorem succeeds_after_k_failures registry s x N K fuel w v :
  (Z.of_nat N <= 2 ^ 53)%Z ->
  K <= N ->
  (forall i, i < K -> exists r, outcome_at s i (user w) = Rejected r) ->
  outcome_at s K (user w) = Fulfilled v ->
  K < fuel ->
  exists w',
    retrier_constant registry fuel s x (of_Z (Z.of_nat N)) w
    = (Normal (Fulfilled v), w')
    /\ attempts (log w') = attempts (log w) + (K + 1).
Proof.
  intros HN HKN Hfail Hok Hfuel. rewrite retrier_constant_eq.
  pose proof (constant_timer_retry_env x (of_Z (Z.of_nat N)) w) as Henv.
  set (w0 := (constant_timer_retry x (of_Z (Z.of_nat N)) w).2) in *.
  set (l := length (store w)) in *.
  destruct (timer_rounds s l K w0 _ Henv)
    as (wk & envk & Hk & Hu & _ & _ & _ & Ha & _).
  { intros i Hi. apply iter_sub1_positive; lia. }
  { exact Hfail. }
  pose proof (invoke_eq s wk) as Hinv.
  unfold outcome_at in Hok. change (user w0) with (user w) in Hu.
  rewrite Hu, Hok in Hinv.
  eexists. replace fuel with (K + S (fuel - S K)) by lia.
  erewrite subject_caller_rounds;
    [| exact Hk | eapply subject_caller_success; exact Hinv | done].
  cbn [fst snd returned]. split; [done|]. cbn [log].
  rewrite attempts_app, Ha. simpl. lia.
Qed.

End ConstantDelay.

(** ** Counts that the decrement does not step through *)

Section Inexact.
Context {U V E : Type}.
Implicit Types (w : @world U V E) (s : @subject U V E).
Implicit Types (c : number) (K k l fuel : nat) (env : timer_env).

(** A counter that never shows zero lets a subject that keeps failing be
    retried for ever. *)
Lemma timer_never_aborts s l fuel w env :
  store w !! l = Some env ->
  (forall i, num_ne0 (Nat.iter i num_sub1 (retries_remaining env)) = true) ->
  (forall u, exists r, (s u).1 = Rejected r) ->
  exists w',
    subject_caller s (TimerRetry l) fuel w = (Pending, w')
    /\ attempts (log w') = attempts (log w) + fuel.
Proof.
  intros Hl Hne Hfail.
  destruct (timer_rounds s l fuel w env Hl)
    as (wk & envk & Hk & _ & _ & _ & _ & Ha & _).
  { by intros i _. }
  { intros i _. by apply always_fails_outcome. }
  exists wk. split; [|done].
  replace fuel with (fuel + 0) at 1 by lia.
  by eapply subject_caller_rounds.
Qed.

(** A counter that the decrement rounds back to itself stays where it is. *)
Lemma iter_sub1_stuck c k : num_sub1 c = c -> Nat.iter k num_sub1 c = c.
Proof.
  intros Hc. induction k as [|k IH]; [done|].
  by rewrite Nat.iter_succ, IH.
Qed.

(** From 2^53 + 2 the first decrement gives 2^53, and the following ones
    are exact. *)
Lemma iter_sub1_beyond_exact k :
  (Z.of_nat k <= 2 ^ 53)%Z ->
  Nat.iter (S k) num_sub1 (of_Z (2 ^ 53 + 2)) = of_Z (2 ^ 53 - Z.of_nat k).
Proof.
  intros Hk. rewrite Nat.iter_succ_r.
  replace (num_sub1 (of_Z (2 ^ 53 + 2))) with (of_Z (2 ^ 53))
    by (by vm_compute).
  apply iter_sub1_of_Z; lia.
Qed.

(** With a count of 2^53 + 2 the abort comes one attempt early: the
    subject fails [K - 1] times under retries, and the controller rejects
    its [K]-th failure. *)
Lemma timer_aborts_early s K fuel w l env :
  Z.of_nat K = (2 ^ 53 + 2)%Z ->
  store w !! l = Some env ->
  retries_remaining env = of_Z (Z.of_nat K) ->
  (forall i, i < K -> exists r, outcome_at s i (user w) = Rejected r) ->
  K <= fuel ->
  exists w',
    subject_caller s (TimerRetry l) fuel w
    = (outcome_at s (K - 1) (user w), w')
    /\ attempts (log w') = attempts (log w) + K.
Proof.
  intros HK Hl Hrr Hfail Hfuel. rewrite HK in Hrr.
  destruct K as [|[|j]]; [lia | lia |].
  assert (Z.of_nat j = 2 ^ 53)%Z as Hj by lia.
  destruct (timer_rounds s l (S j) w env Hl)
    as (wk & envk & Hk & Hu & Hs & Hc & _ & Ha & _).
  { intros [|i] Hi; rewrite Hrr;
      [change (num_ne0 (of_Z (2 ^ 53 + 2)) = true); by rewrite num_ne0_of_Z|].
    rewrite iter_sub1_beyond_exact, num_ne0_of_Z by lia.
    destruct (Z.eqb_spec (2 ^ 53 - Z.of_nat i) 0); [lia | done]. }
  { intros i Hi. apply Hfail. lia. }
  rewrite Hrr, iter_sub1_beyond_exact in Hc by lia.
  replace (2 ^ 53 - Z.of_nat j)%Z with 0%Z in Hc by lia.
  destruct (Hfail (S j) ltac:(lia)) as [r Hr].
  pose proof (invoke_eq s wk) as Hinv. rewrite Hu in Hinv.
  fold (outcome_at s (S j) (user w)) in Hinv.
  replace (S (S j) - 1) with (S j) by lia. rewrite Hr in Hinv |- *.
  eexists. replace fuel with (S j + S (fuel - S (S j))) by lia. split.
  - eapply subject_caller_rounds; [exact Hk | | done].
    eapply subject_caller_abort; [exact Hinv | by eapply call_timer_aborts].
  - cbn [log]. rewrite attempts_app, Ha. simpl. lia.
Qed.

End Inexact.

(** ** Aborting and never aborting *)

Section Decisions.
Context {U V E : Type}.
Implicit Types (w : @world U V E) (s : @subject U V E) (f : @func U E).
Implicit Types (registry : gmap string (@policy U V E)).
Implicit Types (x n : number) (k fuel : nat).

(** C6. Whatever the subject and the resolved controller, once the
    controller aborts with a reason [R'], after any number of rounds in
    which it proceeded and whatever reason [R] it was given, [retrier] is
    rejected with [R'] itself, however many further attempts would be
    observed. *)
Theorem abort_reason_is_final registry s d f k fuel w0 w wk R w1 R' w2 :
  validate registry d w0 = Normal (f, w) ->
  rounds s f k w = Some wk ->
  invoke s wk = (Rejected R, w1) ->
  call f R w1 = (Rejected R', w2) ->
  k < fuel ->
  retrier registry fuel s d w0 = (Normal (Rejected R'), w2).
Proof.
  intros Hd Hk Hs Hf Hfuel. unfold retrier. rewrite Hd.
  replace fuel with (k + S (fuel - S k)) by lia.
  erewrite subject_caller_rounds;
    [| exact Hk | by eapply subject_caller_abort | done].
  done.
Qed.

Lemma call_each_timer l (errs : list E) : forall w env,
  store w !! l = Some env ->
  (forall i, i < length errs ->
     num_ne0 (Nat.iter i num_sub1 (retries_remaining env)) = true) ->
  exists envk,
    (call_each (TimerRetry l) errs w).1
    = replicate (length errs) (Fulfilled ())
    /\ store (call_each (TimerRetry l) errs w).2 !! l = Some envk
    /\ retries_remaining envk
       = Nat.iter (length errs) num_sub1 (retries_remaining env).
Proof.
  induction errs as [|err errs IH]; intros w env Hl Hne.
  - by exists env.
  - cbn [call_each].
    rewrite (call_timer_proceeds l err w env Hl (Hne 0 ltac:(simpl; lia))).
    match goal with |- context [call_each _ errs ?w1] =>
      destruct (IH w1 {| x_ms_between_retries := x_ms_between_retries env;
                         n_retries := n_retries env;
                         retries_remaining :=
                           num_sub1 (retries_remaining env) |})
        as (envk & Hd & Hs & Hc);
      [ simpl; apply list_lookup_insert_eq; by eapply lookup_lt_Some
      | intros i Hi; simpl; rewrite <- Nat.iter_succ_r; apply Hne; simpl; lia
      | destruct (call_each _ errs w1) as [ds w2] ]
    end.
    exists envk. simpl in *. repeat split; [by f_equal | done |].
    by rewrite Hc, <- Nat.iter_succ_r.
Qed.

(** C8. When the constructor receives a negative retry count, the
    controller it returns proceeds at every one of any sequence of calls
    and its counter differs from zero after them; under [retrier] a subject
    that keeps failing is therefore invoked again and again: whatever the
    number of attempts observed, all of them took place and the chain is
    still pending. *)
Theorem negative_count_never_aborts registry x n w f w0 :
  num_negative n = true ->
  constant_timer_retry x n w = (f, w0) ->
  (forall errs : list E, exists env,
      (call_each f errs w0).1 = replicate (length errs) (Fulfilled ())
      /\ store (call_each f errs w0).2 !! length (store w) = Some env
      /\ num_ne0 (retries_remaining env) = true)
  /\ (forall s fuel,
        (forall u, exists r, (s u).1 = Rejected r) ->
        exists w',
          retrier registry fuel s (VFun f) w0 = (Normal Pending, w')
          /\ attempts (log w') = attempts (log w) + fuel).
Proof.
  intros Hneg%num_negative_floor [= <- <-].
  pose proof (constant_timer_retry_env x n w) as Henv.
  set (w0 := (constant_timer_retry x n w).2) in *.
  set (l := length (store w)) in *.
  split.
  - intros errs.
    destruct (call_each_timer l errs w0 _ Henv) as (envk & Hd & Hs & Hc).
    { intros i _. by apply iter_sub1_negative. }
    exists envk. repeat split; [done | done |].
    rewrite Hc. by apply iter_sub1_negative.
  - intros s fuel Hfail.
    destruct (timer_rounds s l fuel w0 _ Henv)
      as (wk & envk & Hk & _ & _ & _ & _ & Ha & _).
    { intros i _. by apply iter_sub1_negative. }
    { intros i _. by apply always_fails_outcome. }
    exists wk. unfold retrier. cbn [validate].
    replace fuel with (fuel + 0) at 1 by lia.
    by erewrite subject_caller_rounds; [| exact Hk | done | done].
Qed.

End Decisions.

(** ** Resolving a descriptor *)

Section Resolver.
Context {U V E : Type}.
Implicit Types (w : @world U V E) (s : @subject U V E) (f : @func U E).
Implicit Types (registry : gmap string (@policy U V E)).
Implicit Types (d args v : @value U E) (name key : string).
Implicit Types (declared : list (string * string)).

(** The case analysis of [validate] is the one the program makes with
    [typeof] and [Object.keys]. *)
Lemma validate_function registry d w :
  typeof d = "function" -> exists f, d = VFun f /\ validate registry d w = Normal (f, w).
Proof. destruct d; try done. intros _. by eexists. Qed.

Lemma validate_not_object registry d w :
  typeof d ≠ "function" -> typeof d ≠ "object" ->
  validate registry d w = Throw InvalidParameters.
Proof. by destruct d. Qed.

Lemma validate_keys registry props w :
  size props ≠ 1 -> validate registry (VObj props) w = Throw InvalidParameters.
Proof.
  rewrite <- length_map_to_list. cbn [validate].
  by destruct (map_to_list props) as [|[] [|]].
Qed.

Lemma get_prop_own args key v :
  own_property args key = Some v -> get_prop args key = Normal v.
Proof. destruct args; try done. simpl. by intros ->. Qed.

(** The validation runs no code of the caller: what it throws is an error
    of the program or of the language. *)
Lemma get_prop_no_raise args key (x : E) : get_prop args key ≠ Raise x.
Proof. by destruct args. Qed.

Lemma collect_args_no_raise name args declared (x : E) : forall arg_vals,
  collect_args name args declared arg_vals ≠ Raise x.
Proof.
  induction declared as [|[key ty] declared IH]; intros arg_vals; [done|].
  cbn [collect_args].
  pose proof (get_prop_no_raise args key) as Hget.
  destruct (get_prop args key) as [v|e|x']; [|done|].
  - cbn [mbind completion_bind]. destruct (truthy v); [|done].
    destruct (negb _); [done | apply IH].
  - by destruct (Hget x').
Qed.

Lemma collect_args_accepted name args declared : forall arg_vals,
  forallb (accepted args) declared = true ->
  collect_args name args declared arg_vals
  = Normal (arg_vals ++ declared_values args declared).
Proof.
  induction declared as [|[key ty] declared IH]; intros arg_vals Hall.
  - simpl. by rewrite app_nil_r.
  - cbn [forallb] in Hall. apply andb_true_iff in Hall as [Hhd Hall].
    unfold accepted in Hhd. cbn [fst snd] in Hhd.
    destruct (own_property args key) as [v|] eqn:Hv; [|done].
    apply andb_true_iff in Hhd as [Ht Hty].
    cbn [collect_args]. rewrite (get_prop_own _ _ _ Hv).
    cbn [mbind completion_bind]. rewrite Ht, Hty. cbn [negb].
    rewrite IH by done. unfold declared_values. cbn [fmap list_fmap fst].
    rewrite Hv. simpl. by rewrite <- app_assoc.
Qed.





End Resolver.

(** ** The registered constant-delay policy *)

Section Registered.
Context {U V E : Type}.
Implicit Types (w : @world U V E) (s : @subject U V E) (f : @func U E).
Implicit Types (registry : gmap string (@policy U V E)).
Implicit Types (d args v : @value U E) (name key : string).

(** A registered policy whose declared parameters are all accepted is
    constructed from their values, in declared order; whatever else the
    parameter object holds plays no part. *)
Lemma validate_registered registry name args entry w :
  registry !! name = Some entry ->
  forallb (accepted args) (params entry) = true ->
  validate registry (VObj {[ name := args ]}) w
  = Normal (fn entry (declared_values args (params entry)) w).
Proof.
  intros Hreg Hok. cbn [validate]. rewrite map_to_list_singleton, Hreg.
  by rewrite collect_args_accepted.
Qed.

(** The built-in registry resolves a mapping only by calling
    [constant_timer_retry] on two numbers, which the mapping determines:
    the world plays no part in them. *)
Lemma validate_builtin props w f w1 :
  validate (@retry_fn U V E) (VObj props) w = Normal (f, w1) ->
  exists x n, forall w',
    validate (@retry_fn U V E) (VObj props) w'
    = Normal (constant_timer_retry x n w').
Proof.
  cbn [validate].
  destruct (map_to_list props) as [|[name args] [|]]; try done.
  unfold retry_fn. destruct (decide (name = "constant_timer_retry")) as [->|Hne].
  - rewrite lookup_singleton_eq. cbn [params fn].
    destruct (collect_args _ _ _ _) as [arg_vals| |]; [|done..].
    cbn [mbind completion_bind]. intros _. by eexists _, _.
  - rewrite lookup_singleton_ne by done. by destruct (inherited name).
Qed.

(** With truthy numbers the descriptor of line 145 is the call of line 142,
    whatever further keys the parameter object has. *)
Lemma descriptor_resolves extra (x n : number) w :
  truthy (VNum x : @value U E) = true ->
  truthy (VNum n : @value U E) = true ->
  validate retry_fn (descriptor_with extra (VNum x) (VNum n)) w
  = Normal (constant_timer_retry x n w).
Proof.
  intros Hx Hn. unfold descriptor_with, retry_fn.
  erewrite validate_registered; [| apply lookup_singleton_eq |].
  - cbn [fn params declared_values fmap list_fmap fst own_property].
    rewrite (lookup_insert_eq (M:=gmap string)),
      (lookup_insert_ne (M:=gmap string)),
      (lookup_insert_eq (M:=gmap string)) by done.
    done.
  - cbn [params forallb]. unfold accepted. cbn [fst snd own_property].
    rewrite (lookup_insert_eq (M:=gmap string)),
      (lookup_insert_ne (M:=gmap string)),
      (lookup_insert_eq (M:=gmap string)) by done.
    cbn [typeof]. by rewrite Hx, Hn.
Qed.

Lemma retrier_descriptor extra (x n : number) fuel s w :
  truthy (VNum x : @value U E) = true ->
  truthy (VNum n : @value U E) = true ->
  retrier retry_fn fuel s (descriptor_with extra (VNum x) (VNum n)) w
  = retrier_constant retry_fn fuel s x n w.
Proof.
  intros Hx Hn. unfold retrier_constant, retrier at 1.
  by rewrite descriptor_resolves.
Qed.

(** C2. The parameter [x_ms_between_retries] is present in the parameter
    object, with the number 0, a value of the declared type; [retrier]
    nevertheless throws the error of line 46, which reports it as
    missing. *)
Theorem present_zero_reported_missing s fuel w :
  own_property
    (VObj {[ "x_ms_between_retries" := VNum (of_Z 0);
             "n_retries" := VNum (of_Z 3) ]} : @value U E)
    "x_ms_between_retries" = Some (VNum (of_Z 0))
  /\ typeof (VNum (of_Z 0) : @value U E) = "number"
  /\ retrier retry_fn fuel s (descriptor (VNum (of_Z 0)) (VNum (of_Z 3))) w
     = (Throw (MissingProperty "constant_timer_retry" "x_ms_between_retries"),
        w)
  /\ message (MissingProperty "constant_timer_retry" "x_ms_between_retries")
     = Some "constant_timer_retry is missing a property: x_ms_between_retries".
Proof. by vm_compute. Qed.

(** C10. Every declared parameter is present with a number, and the
    parameter object has one more key; because one of the numbers is 0,
    [retrier] throws the error of line 46 instead of constructing the
    policy. *)
Theorem extra_key_with_zero_is_rejected s fuel w :
  retrier retry_fn fuel s
    (descriptor_with {[ "verbose" := VBool true ]}
                     (VNum (of_Z 100)) (VNum (of_Z 0))) w
  = (Throw (MissingProperty "constant_timer_retry" "n_retries"), w).
Proof. by vm_compute. Qed.

End Registered.

(** ** Independence of two resolutions *)

Section Independence.
Context {U V E : Type}.
Implicit Types (w wa wb : @world U V E) (f : @func U E) (l : nat).
Implicit Types (s : @subject U V E) (allowed : @func U E -> Prop).

(** A call of the closure over [l] reads and writes the store at [l]
    only, and no call changes the size of the store. *)
Lemma timeout_callback_frame l l' w :
  l ≠ l' -> store (timeout_callback l w) !! l' = store w !! l'.
Proof.
  intros Hne. unfold timeout_callback.
  destruct (store w !! l) as [env|]; [|done].
  by apply list_lookup_insert_ne.
Qed.

Lemma timeout_callback_length l w :
  length (store (timeout_callback l w)) = length (store w).
Proof.
  unfold timeout_callback. destruct (store w !! l) as [env|]; [|done].
  apply length_insert.
Qed.

Lemma timer_retry_body_store l (err : E) w :
  store (timer_retry_body l err w).2 = store w.
Proof.
  unfold timer_retry_body. destruct (store w !! l) as [env|]; [|done].
  by destruct (num_ne0 _).
Qed.

Lemma call_frame f l (err : E) w :
  f ≠ TimerRetry l -> store (call f err w).2 !! l = store w !! l.
Proof.
  intros Hne. destruct f as [d|l']; cbn [call].
  - by destruct (d err (user w)).
  - pose proof (timer_retry_body_store l' err w) as Hb.
    destruct (timer_retry_body l' err w) as [[p|] w1]; cbn [snd] in Hb |- *.
    + by rewrite Hb.
    + rewrite timeout_callback_frame, Hb; [done | congruence].
Qed.

Lemma call_length f (err : E) w :
  length (store (call f err w).2) = length (store w).
Proof.
  destruct f as [d|l']; cbn [call].
  - by destruct (d err (user w)).
  - pose proof (timer_retry_body_store l' err w) as Hb.
    destruct (timer_retry_body l' err w) as [[p|] w1]; cbn [snd] in Hb |- *.
    + by rewrite Hb.
    + by rewrite timeout_callback_length, Hb.
Qed.

Lemma invoke_store s w : store (invoke s w).2 = store w.
Proof. by rewrite invoke_eq. Qed.

Lemma subject_caller_frame s f l fuel : forall w,
  f ≠ TimerRetry l -> store (subject_caller s f fuel w).2 !! l = store w !! l.
Proof.
  induction fuel as [|fuel IH]; intros w Hne; [done|]. simpl.
  pose proof (invoke_store s w) as Hs.
  destruct (invoke s w) as [[v|err| |e] w1]; cbn [snd] in Hs |- *;
    try by rewrite Hs.
  pose proof (call_frame f l err w1 Hne) as Hc.
  destruct (call f err w1) as [[[]|err'| |err'] w2]; cbn [snd] in Hc |- *;
    try by rewrite Hc, Hs.
  specialize (IH w2 Hne).
  destruct (subject_caller s f fuel w2) as [p' w3]. cbn [snd] in IH |- *.
  by rewrite IH, Hc, Hs.
Qed.

Lemma subject_caller_length s f fuel : forall w,
  length (store (subject_caller s f fuel w).2) = length (store w).
Proof.
  induction fuel as [|fuel IH]; intros w; [done|]. simpl.
  pose proof (invoke_store s w) as Hs.
  destruct (invoke s w) as [[v|err| |e] w1]; cbn [snd] in Hs |- *;
    try by rewrite Hs.
  pose proof (call_length f err w1) as Hc.
  destruct (call f err w1) as [[[]|err'| |err'] w2]; cbn [snd] in Hc |- *;
    try by rewrite Hc, Hs.
  specialize (IH w2).
  destruct (subject_caller s f fuel w2) as [p' w3]. cbn [snd] in IH |- *.
  by rewrite IH, Hc, Hs.
Qed.

(** A resolution against the built-in registry leaves the world as it is
    or constructs one policy. *)
Lemma validate_retry_fn_world (d : @value U E) w f w' :
  validate retry_fn d w = Normal (f, w') ->
  w' = w \/ exists x n, w' = (constant_timer_retry x n w).2.
Proof.
  destruct d as [| | | | |props|f0]; try done.
  - intros Hv. right.
    destruct (validate_builtin _ _ _ _ Hv) as (x & n & Hall).
    rewrite Hall in Hv. injection Hv as _ <-. by exists x, n.
  - intros [= _ <-]. by left.
Qed.

(** Whatever happens, the store only grows, and what happens without the
    closure over [l] leaves the environment at [l] as it is. *)
Lemma happens_length allowed w w' :
  happens allowed w w' -> length (store w) <= length (store w').
Proof.
  intros [f err w0 _|l err w0 _|l w0 _|s w0|x n w0|d w0 f w0' Hv|s f fuel w0 _].
  - by rewrite call_length.
  - by rewrite timer_retry_body_store.
  - by rewrite timeout_callback_length.
  - by rewrite invoke_store.
  - simpl. rewrite length_app. lia.
  - destruct (validate_retry_fn_world _ _ _ _ Hv) as [->|(x & n & ->)];
      [done|]. simpl. rewrite length_app. lia.
  - by rewrite subject_caller_length.
Qed.

Lemma happens_frame allowed l w w' :
  happens allowed w w' ->
  ~ allowed (TimerRetry l) ->
  l < length (store w) ->
  store w' !! l = store w !! l.
Proof.
  intros [f err w0 Hf|l' err w0 Hl|l' w0 Hl|s w0|x n w0|d w0 f w0' Hv
         |s f fuel w0 Hf] Hno Hlt.
  - apply call_frame. by intros ->.
  - by rewrite timer_retry_body_store.
  - apply timeout_callback_frame. by intros ->.
  - by rewrite invoke_store.
  - simpl. by apply lookup_app_l.
  - destruct (validate_retry_fn_world _ _ _ _ Hv) as [->|(x & n & ->)];
      [done|]. simpl. by apply lookup_app_l.
  - apply subject_caller_frame. by intros ->.
Qed.

Lemma happens_rtc_length allowed w w' :
  rtc (happens allowed) w w' -> length (store w) <= length (store w').
Proof.
  induction 1 as [|w w1 w' Hstep _ IH]; [done|].
  apply happens_length in Hstep. lia.
Qed.

Lemma happens_rtc_frame allowed l w w' :
  rtc (happens allowed) w w' ->
  ~ allowed (TimerRetry l) ->
  l < length (store w) ->
  store w' !! l = store w !! l.
Proof.
  induction 1 as [|w w1 w' Hstep _ IH]; intros Hno Hlt; [done|].
  rewrite IH; [by eapply happens_frame | done |].
  apply happens_length in Hstep. lia.
Qed.

(** What a closure decides depends on its environment only. *)
Lemma call_timer_local l l' (err : E) w wa :
  store w !! l = store wa !! l' ->
  (call (TimerRetry l) err w).1 = (call (TimerRetry l') err wa).1
  /\ store (call (TimerRetry l) err w).2 !! l
     = store (call (TimerRetry l') err wa).2 !! l'.
Proof.
  intros Heq. cbn [call]. unfold timer_retry_body. rewrite <- Heq.
  destruct (store w !! l) as [env|] eqn:Hl;
    [|simpl; split; [done | congruence]].
  destruct (num_ne0 _); [|simpl; split; [done | congruence]].
  unfold timeout_callback. cbn [store user log]. rewrite Hl, <- Heq.
  cbn [fst snd store]. split; [done|].
  rewrite !list_lookup_insert_eq; [done | |]; by eapply lookup_lt_Some.
Qed.

Lemma call_each_local l l' (errs : list E) : forall w wa,
  store w !! l = store wa !! l' ->
  (call_each (TimerRetry l) errs w).1 = (call_each (TimerRetry l') errs wa).1.
Proof.
  induction errs as [|err errs IH]; intros w wa Heq; [done|].
  cbn [call_each].
  destruct (call_timer_local l l' err w wa Heq) as [Hd Hs].
  destruct (call (TimerRetry l) err w) as [d w1].
  destruct (call (TimerRetry l') err wa) as [d' wa1].
  cbn [fst snd] in Hd, Hs. subst d'.
  specialize (IH w1 wa1 Hs).
  destruct (call_each (TimerRetry l) errs w1) as [ds w2].
  destruct (call_each (TimerRetry l') errs wa1) as [ds' wa2].
  cbn [fst] in IH |- *. by rewrite IH.
Qed.

(** C9. Two resolutions of one registered-policy descriptor, with anything
    happening between them, whole runs of [retrier] included, yield two
    distinct controllers.  The second starts out deciding as the first
    did when it was new, whatever use was made of the first.  From then
    on, nothing that happens without the first (calls of the second,
    awaited or overlapping, runs under it, attempts of a subject, further
    resolutions) changes what the first decides on any sequence of
    reasons, and likewise for the second. *)
Theorem resolutions_are_independent props w f1 w1 w1' f2 w2 :
  validate (@retry_fn U V E) (VObj props) w = Normal (f1, w1) ->
  rtc (happens (fun _ => True)) w1 w1' ->
  validate (@retry_fn U V E) (VObj props) w1' = Normal (f2, w2) ->
  f1 ≠ f2
  /\ (forall errs : list E,
        (call_each f2 errs w2).1 = (call_each f1 errs w1).1)
  /\ (forall wa wb (errs : list E),
        rtc (happens (fun _ => True)) w2 wa ->
        rtc (happens (fun f => f ≠ f1)) wa wb ->
        (call_each f1 errs wb).1 = (call_each f1 errs wa).1)
  /\ (forall wa wb (errs : list E),
        rtc (happens (fun _ => True)) w2 wa ->
        rtc (happens (fun f => f ≠ f2)) wa wb ->
        (call_each f2 errs wb).1 = (call_each f2 errs wa).1).
Proof.
  intros H1 Hbetween H2.
  destruct (validate_builtin _ _ _ _ H1) as (x & n & Hall).
  rewrite Hall in H1, H2.
  assert (f1 = TimerRetry (length (store w))
          /\ w1 = (constant_timer_retry x n w).2) as [-> Hw1]
    by (by injection H1 as <- <-).
  assert (f2 = TimerRetry (length (store w1'))
          /\ w2 = (constant_timer_retry x n w1').2) as [-> Hw2]
    by (by injection H2 as <- <-).
  pose proof (constant_timer_retry_env x n w) as Henv1.
  pose proof (constant_timer_retry_env x n w1') as Henv2.
  rewrite <- Hw1 in Henv1. rewrite <- Hw2 in Henv2.
  pose proof (happens_rtc_length _ _ _ Hbetween) as Hlen.
  assert (length (store w1) = S (length (store w))) as Hlen1
    by (rewrite Hw1; simpl; rewrite length_app; simpl; lia).
  assert (length (store w2) = S (length (store w1'))) as Hlen2
    by (rewrite Hw2; simpl; rewrite length_app; simpl; lia).
  clear H1 H2 Hw1 Hw2.
  split; [intros [= Heq]; lia|]. split; [|split].
  - intros errs. apply call_each_local. by rewrite Henv1, Henv2.
  - intros wa wb errs Ha Hb. apply call_each_local.
    apply happens_rtc_length in Ha.
    eapply happens_rtc_frame; [exact Hb | by intros [] | lia].
  - intros wa wb errs Ha Hb. apply call_each_local.
    apply happens_rtc_length in Ha.
    eapply happens_rtc_frame; [exact Hb | by intros [] | lia].
Qed.

End Independence.

(** ** Rounding of the constructor's inputs *)

Section Rounding.
Context {U V E : Type}.
Implicit Types (w : @world U V E).

(** C7, as amended. The constructor rounds its inputs down, to the
    greatest integers not above them.  This is rounding toward zero for an
    input that is an integer or is not negative; a negative input with a
    fractional part lands one below its rounding toward zero. *)
Theorem constructor_rounds_down (x n : Q) w :
  store (constant_timer_retry (Finite x) (Finite n) w).2 !! length (store w)
  = Some {| x_ms_between_retries := of_Z (Qfloor x);
            n_retries := of_Z (Qfloor n);
            retries_remaining := of_Z (Qfloor n) |}
  /\ Qfloor x = (if fractional x && num_negative (Finite x)
                 then truncate_toward_zero x - 1
                 else truncate_toward_zero x)%Z
  /\ Qfloor n = (if fractional n && num_negative (Finite n)
                 then truncate_toward_zero n - 1
                 else truncate_toward_zero n)%Z.
Proof.
  split; [apply constant_timer_retry_env|].
  split; apply Qfloor_truncate.
Qed.

End Rounding.

(** C7, as stated, fails: from the input -0.5 the constructor keeps -1 as
    delay and as retry count, whereas rounding toward zero gives 0. *)
Lemma minus_half_becomes_minus_one :
  store (constant_timer_retry (Finite (-1 # 2)) (Finite (-1 # 2)) Sample.start).2
    !! 0
  = Some {| x_ms_between_retries := of_Z (-1);
            n_retries := of_Z (-1);
            retries_remaining := of_Z (-1) |}
  /\ truncate_toward_zero (-1 # 2) = 0%Z
  /\ of_Z (-1) ≠ of_Z (truncate_toward_zero (-1 # 2)).
Proof. by vm_compute. Qed.

(** C1, as stated, fails.  The double nearest to 2^54 - 1 is 2^54, so
    the counter of a controller built for 2^54 retries stays at 2^54, and a
    subject that keeps failing is retried for ever: however many attempts
    are observed, they all took place and the chain is not rejected. *)
Lemma count_of_2_54_is_never_used_up :
  num_sub1 (of_Z (2 ^ 54)) = of_Z (2 ^ 54)
  /\ forall fuel, exists w',
       retrier_constant retry_fn fuel Sample.always_fails (of_Z 100)
                        (of_Z (2 ^ 54)) Sample.start
       = (Normal Pending, w')
       /\ attempts (log w') = fuel.
Proof.
  assert (num_sub1 (of_Z (2 ^ 54)) = of_Z (2 ^ 54)) as Hstuck by (by vm_compute).
  split; [exact Hstuck|]. intros fuel. rewrite retrier_constant_eq.
  pose proof (constant_timer_retry_env (of_Z 100) (of_Z (2 ^ 54)) Sample.start)
    as Henv.
  rewrite (Math_floor_of_Z (2 ^ 54)) in Henv.
  destruct (timer_never_aborts Sample.always_fails _ fuel _ _ Henv)
    as (w' & Hrun & Ha).
  - intros i. cbn [retries_remaining]. rewrite iter_sub1_stuck by done.
    by rewrite num_ne0_of_Z.
  - intros u. by exists u.
  - exists w'. by rewrite Hrun.
Qed.

(** C5, as stated, fails.  The double nearest to 2^53 + 1 is 2^53, so the
    counter of a controller built for [K] = 2^53 + 2 retries is at zero
    after [K - 1] decrements: a subject that fails [K] times and would
    then succeed is invoked [K] times, not [K + 1], and [retrier] is
    rejected with its [K]-th failure. *)
Lemma count_of_2_53_plus_2_aborts_early :
  Z.of_nat Sample.beyond_exact = (2 ^ 53 + 2)%Z
  /\ (forall i, i < Sample.beyond_exact ->
        outcome_at (Sample.fails_then_succeeds Sample.beyond_exact) i
                   (user Sample.start) = Rejected i)
  /\ outcome_at (Sample.fails_then_succeeds Sample.beyond_exact)
                Sample.beyond_exact (user Sample.start)
     = Fulfilled Sample.beyond_exact
  /\ exists w',
       retrier_constant retry_fn (S Sample.beyond_exact)
         (Sample.fails_then_succeeds Sample.beyond_exact) (of_Z 100)
         (of_Z (Z.of_nat Sample.beyond_exact)) Sample.start
       = (Normal (Rejected (Sample.beyond_exact - 1)), w')
       /\ attempts (log w') = Sample.beyond_exact.
Proof.
  assert (Z.of_nat Sample.beyond_exact = (2 ^ 53 + 2)%Z) as HK
    by (apply Z2Nat.id; lia).
  generalize dependent Sample.beyond_exact. intros K HK.
  assert (forall i, state_after (Sample.fails_then_succeeds K) i 0 = i) as Hst.
  { intros i. induction i as [|i IH]; [done|].
    by rewrite state_after_succ, IH. }
  assert (forall i, i < K ->
            outcome_at (Sample.fails_then_succeeds K) i 0 = Rejected i) as Hfail.
  { intros i Hi. unfold outcome_at. rewrite Hst.
    unfold Sample.fails_then_succeeds. cbn [fst].
    by apply Nat.ltb_lt in Hi as ->. }
  split; [done|]. split; [exact Hfail|]. split.
  - unfold outcome_at. cbn [Sample.start user]. rewrite Hst.
    unfold Sample.fails_then_succeeds. cbn [fst].
    by rewrite Nat.ltb_irrefl.
  - rewrite retrier_constant_eq.
    pose proof (constant_timer_retry_env (of_Z 100) (of_Z (Z.of_nat K))
                  Sample.start) as Henv.
    rewrite (Math_floor_of_Z (Z.of_nat K)) in Henv.
    destruct (timer_aborts_early (Sample.fails_then_succeeds K) K (S K)
                _ _ _ HK Henv eq_refl) as (w' & Hrun & Ha); [|lia|].
    + intros i Hi. exists i. by apply Hfail.
    + exists w'. rewrite Hrun. cbn [fst snd returned].
      change (user (constant_timer_retry (of_Z 100) (of_Z (Z.of_nat K))
                      Sample.start).2) with 0.
      rewrite Hfail by lia. split; [done|]. by rewrite Ha.
Qed.

(** ** The theorems at sample callers *)

Lemma always_failing_uses_every_retry_witness :
  (Z.of_nat 3 <= 2 ^ 53)%Z
  /\ (forall u, exists r, (Sample.always_fails u).1 = Rejected r)
  /\ 3 < 4
  /\ exists r w',
       retrier_constant retry_fn 4 Sample.always_fails (of_Z 100)
                        (of_Z (Z.of_nat 3)) Sample.start
       = (Normal (Rejected r), w')
       /\ attempts (log w') = attempts (log Sample.start) + (3 + 1)
       /\ last (log w') = Some (Attempt (Rejected r))
       /\ outcome_at Sample.always_fails 3 (user Sample.start) = Rejected r.
Proof.
  assert (forall u, exists r, (Sample.always_fails u).1 = Rejected r) as Hfail
    by (intros u; exists u; reflexivity).
  split; [lia|]. split; [exact Hfail|]. split; [lia|].
  apply (always_failing_uses_every_retry retry_fn Sample.always_fails
           (of_Z 100) 3 4 Sample.start); [lia | exact Hfail | lia].
Defined.


Lemma no_retry_aborts_at_once_witness :
  (Sample.always_fails (user Sample.start)).1 = Rejected 0
  /\ 0 < 1
  /\ exists w',
       retrier_constant retry_fn 1 Sample.always_fails (of_Z 100) (of_Z 0)
                        Sample.start
       = (Normal (Rejected 0), w')
       /\ log w' = log Sample.start ++ [Attempt (Rejected 0)].
Proof.
  split; [reflexivity|]. split; [lia|].
  apply (no_retry_aborts_at_once retry_fn Sample.always_fails (of_Z 100) 1
           Sample.start 0); [reflexivity | lia].
Defined.

Lemma succeeds_after_k_failures_witness :
  (Z.of_nat 3 <= 2 ^ 53)%Z
  /\ 2 <= 3
  /\ (forall i, i < 2 ->
        exists r, outcome_at (Sample.fails_then_succeeds 2) i
                    (user Sample.start) = Rejected r)
  /\ outcome_at (Sample.fails_then_succeeds 2) 2 (user Sample.start)
     = Fulfilled 2
  /\ 2 < 3
  /\ exists w',
       retrier_constant retry_fn 3 (Sample.fails_then_succeeds 2) (of_Z 100)
                        (of_Z (Z.of_nat 3)) Sample.start
       = (Normal (Fulfilled 2), w')
       /\ attempts (log w') = attempts (log Sample.start) + (2 + 1).
Proof.
  assert (forall i, i < 2 ->
            exists r, outcome_at (Sample.fails_then_succeeds 2) i
                        (user Sample.start) = Rejected r) as Hfail.
  { intros [|[|i]] Hi; [by exists 0 | by exists 1 | lia]. }
  split; [lia|]. split; [lia|]. split; [exact Hfail|].
  split; [reflexivity|]. split; [lia|].
  apply (succeeds_after_k_failures retry_fn (Sample.fails_then_succeeds 2)
           (of_Z 100) 3 2 3 Sample.start 2);
    [lia | lia | exact Hfail | reflexivity | lia].
Defined.

Lemma abort_reason_is_final_witness :
  validate retry_fn (VFun Sample.until_two) Sample.start
  = Normal (Sample.until_two, Sample.start)
  /\ rounds Sample.always_fails Sample.until_two 2 Sample.start
     = Some Sample.retried_twice
  /\ invoke Sample.always_fails Sample.retried_twice
     = (Rejected 2, Sample.failed_thrice)
  /\ call Sample.until_two 2 Sample.failed_thrice
     = (Rejected 7, Sample.failed_thrice)
  /\ 2 < 5
  /\ retrier retry_fn 5 Sample.always_fails (VFun Sample.until_two)
             Sample.start
     = (Normal (Rejected 7), Sample.failed_thrice).
Proof.
  split; [reflexivity|]. split; [reflexivity|]. split; [reflexivity|].
  split; [reflexivity|]. split; [lia|].
  apply (abort_reason_is_final retry_fn Sample.always_fails
           (VFun Sample.until_two) Sample.until_two 2 5 Sample.start
           Sample.start Sample.retried_twice 2 Sample.failed_thrice 7
           Sample.failed_thrice); [reflexivity.. | lia].
Defined.

Lemma negative_count_never_aborts_witness :
  num_negative (Finite (-1 # 2)) = true
  /\ constant_timer_retry (of_Z 10) (Finite (-1 # 2)) Sample.start
     = (TimerRetry 0,
        {| user := 0;
           store := [ {| x_ms_between_retries := of_Z 10;
                         n_retries := of_Z (-1);
                         retries_remaining := of_Z (-1) |} ];
           log := [] |})
  /\ (forall errs : list nat, exists env,
        (call_each (TimerRetry 0) errs
           (constant_timer_retry (of_Z 10) (Finite (-1 # 2)) Sample.start).2).1
        = replicate (length errs) (Fulfilled ())
        /\ store
             (call_each (TimerRetry 0) errs
                (constant_timer_retry (of_Z 10) (Finite (-1 # 2))
                   Sample.start).2).2
           !! length (store Sample.start) = Some env
        /\ num_ne0 (retries_remaining env) = true)
  /\ (forall (s : @subject nat nat nat) fuel,
        (forall u, exists r, (s u).1 = Rejected r) ->
        exists w',
          retrier retry_fn fuel s (VFun (TimerRetry 0))
            (constant_timer_retry (of_Z 10) (Finite (-1 # 2)) Sample.start).2
          = (Normal Pending, w')
          /\ attempts (log w') = attempts (log Sample.start) + fuel).
Proof.
  split; [reflexivity|]. split; [reflexivity|].
  apply (negative_count_never_aborts retry_fn (of_Z 10) (Finite (-1 # 2))
           Sample.start (TimerRetry 0)
           (constant_timer_retry (of_Z 10) (Finite (-1 # 2)) Sample.start).2);
    reflexivity.
Defined.

Lemma resolutions_are_independent_witness :
  validate retry_fn (VObj Sample.hundred_three) Sample.start
  = Normal Sample.resolved_once
  /\ rtc (happens (fun _ => True)) Sample.resolved_once.2
         Sample.after_two_attempts
  /\ validate retry_fn (VObj Sample.hundred_three) Sample.after_two_attempts
     = Normal Sample.resolved_twice
  /\ Sample.resolved_once.1 ≠ Sample.resolved_twice.1
  /\ (forall errs : list nat,
        (call_each Sample.resolved_twice.1 errs Sample.resolved_twice.2).1
        = (call_each Sample.resolved_once.1 errs Sample.resolved_once.2).1)
  /\ (forall wa wb (errs : list nat),
        rtc (happens (fun _ => True)) Sample.resolved_twice.2 wa ->
        rtc (happens (fun f => f ≠ Sample.resolved_once.1)) wa wb ->
        (call_each Sample.resolved_once.1 errs wb).1
        = (call_each Sample.resolved_once.1 errs wa).1)
  /\ (forall wa wb (errs : list nat),
        rtc (happens (fun _ => True)) Sample.resolved_twice.2 wa ->
        rtc (happens (fun f => f ≠ Sample.resolved_twice.1)) wa wb ->
        (call_each Sample.resolved_twice.1 errs wb).1
        = (call_each Sample.resolved_twice.1 errs wa).1).
Proof.
  assert (validate retry_fn (VObj Sample.hundred_three) Sample.start
          = Normal Sample.resolved_once) as H1 by (vm_compute; reflexivity).
  assert (rtc (happens (fun _ => True)) Sample.resolved_once.2
            Sample.after_two_attempts) as Hrun
    by exact (rtc_once _ _
                (happens_run _ Sample.always_fails Sample.resolved_once.1 2
                   Sample.resolved_once.2 I)).
  assert (validate retry_fn (VObj Sample.hundred_three)
            Sample.after_two_attempts
          = Normal Sample.resolved_twice) as H2 by (vm_compute; reflexivity).
  split; [exact H1|]. split; [exact Hrun|]. split; [exact H2|].
  apply (resolutions_are_independent Sample.hundred_three Sample.start
           Sample.resolved_once.1 Sample.resolved_once.2
           Sample.after_two_attempts
           Sample.resolved_twice.1 Sample.resolved_twice.2 H1 Hrun H2).
Defined.


(** * Further properties of the code *)

(** ** The loop, whatever the controller *)

Section LoopInversion.
Context {U V E : Type}.
Implicit Types (w : @world U V E) (s : @subject U V E) (f : @func U E).
Implicit Types (registry : gmap string (@policy U V E)).
Implicit Types (k fuel : nat).

(** A chain throws only at its first attempt. *)
Lemma subject_caller_thrown s f fuel w e w' :
  subject_caller s f fuel w = (Thrown e, w') -> invoke s w = (Thrown e, w').
Proof.
  destruct fuel as [|fuel]; [done|]. cbn [subject_caller].
  destruct (invoke s w) as [[v|R| |e'] w1]; try done.
  by destruct (call f R w1) as [[[]|?| |?] ?];
    try destruct (subject_caller s f fuel _) as [[] ?].
Qed.

(** How a chain comes to be rejected: in some round the controller
    rejects, or throws, or the subject throws when it is invoked again. *)
Lemma subject_caller_rejected s f fuel : forall w r' w',
  subject_caller s f fuel w = (Rejected r', w') ->
  exists k wk,
    k < fuel /\ rounds s f k w = Some wk
    /\ ((exists R w1,
           invoke s wk = (Rejected R, w1)
           /\ (call f R w1 = (Rejected r', w')
               \/ call f R w1 = (Thrown r', w')))
        \/ (0 < k /\ invoke s wk = (Thrown r', w'))).
Proof.
  induction fuel as [|fuel IH]; intros w r' w' Hrun; [done|].
  cbn [subject_caller] in Hrun.
  destruct (invoke s w) as [[v|R| |e] w1] eqn:Hs; try done.
  destruct (call f R w1) as [[[]|err'| |err'] w2] eqn:Hf; try done.
  - destruct (subject_caller s f fuel w2) as [p' w3] eqn:Hrec.
    destruct p' as [v|r| |e]; try done; injection Hrun as -> ->.
    + destruct (IH _ _ _ Hrec) as (k & wk & Hk & Hr & Hcause).
      exists (S k), wk. cbn [rounds]. rewrite Hs, Hf.
      split; [lia|]. split; [done|].
      destruct Hcause as [Hcause|[_ Hthrow]]; [by left | right].
      split; [lia | done].
    + exists 1, w2. cbn [rounds]. rewrite Hs, Hf.
      split; [destruct fuel; [done | lia]|]. split; [done|]. right.
      split; [lia|]. by eapply subject_caller_thrown.
  - injection Hrun as -> ->. exists 0, w.
    split; [lia|]. split; [done|]. left. exists R, w1. by split; [|left].
  - injection Hrun as -> ->. exists 0, w.
    split; [lia|]. split; [done|]. left. exists R, w1. by split; [|right].
Qed.

Lemma subject_caller_fulfilled s f fuel : forall w v w',
  subject_caller s f fuel w = (Fulfilled v, w') ->
  exists k wk,
    k < fuel /\ rounds s f k w = Some wk /\ invoke s wk = (Fulfilled v, w').
Proof.
  induction fuel as [|fuel IH]; intros w v w' Hrun; [done|].
  cbn [subject_caller] in Hrun.
  destruct (invoke s w) as [[v0|R| |e] w1] eqn:Hs; try done.
  - injection Hrun as -> ->. exists 0, w. repeat split; [lia | done..].
  - destruct (call f R w1) as [[[]|err'| |err'] w2] eqn:Hf; try done.
    destruct (subject_caller s f fuel w2) as [p' w3] eqn:Hrec.
    destruct p' as [v1|r| |e]; try done. injection Hrun as -> ->.
    destruct (IH _ _ _ Hrec) as (k & wk & Hk & Hr & Hs').
    exists (S k), wk. cbn [rounds]. rewrite Hs, Hf.
    repeat split; [lia | done..].
Qed.

(** A call of a controller logs no attempt. *)
Lemma call_attempts f (err : E) w :
  attempts (log (call f err w).2) = attempts (log w).
Proof.
  destruct f as [d|l]; cbn [call].
  - by destruct (d err (user w)).
  - unfold timer_retry_body. destruct (store w !! l) as [env|]; [|done].
    destruct (num_ne0 _); [|done]. unfold timeout_callback.
    cbn [store]. destruct (store w !! l); cbn [snd log];
      rewrite attempts_app; simpl; lia.
Qed.

(** X1. The loop itself never gives up.  When the promise [retrier]
    returned is rejected with [r'], some number of rounds took place in
    which the subject failed and the controller proceeded, and then either
    the subject failed once more and the controller, called with that
    failure, rejected with [r'] or threw [r'], or the subject, invoked
    again after at least one round, threw [r'] instead of returning a
    promise. *)
Theorem rejection_has_a_cause registry fuel s d w0 r' w' :
  retrier registry fuel s d w0 = (Normal (Rejected r'), w') ->
  exists f w k wk,
    validate registry d w0 = Normal (f, w)
    /\ rounds s f k w = Some wk
    /\ ((exists R w1,
           invoke s wk = (Rejected R, w1)
           /\ (call f R w1 = (Rejected r', w')
               \/ call f R w1 = (Thrown r', w')))
        \/ (0 < k /\ invoke s wk = (Thrown r', w'))).
Proof.
  unfold retrier. destruct (validate registry d w0) as [[f w]|e|x]; [|done..].
  destruct (subject_caller s f fuel w) as [p w2] eqn:Hrun.
  destruct p as [v|r| |e]; try done. intros [= -> ->].
  destruct (subject_caller_rejected _ _ _ _ _ _ Hrun)
    as (k & wk & _ & Hk & Hcause).
  by exists f, w, k, wk.
Qed.

(** X18. A subject that throws instead of returning a promise: at the
    first attempt [retrier] throws the same, without a call of the
    controller; at a later attempt the promise of [retrier] is rejected
    with what was thrown, again without a call of the controller.  And
    [retrier] throws something of the caller's in no other way. *)
Theorem subject_that_throws registry fuel s d f w0 w :
  validate registry d w0 = Normal (f, w) ->
  (forall e w', invoke s w = (Thrown e, w') -> 0 < fuel ->
     retrier registry fuel s d w0 = (Raise e, w'))
  /\ (forall k wk e w', rounds s f k w = Some wk -> 0 < k ->
       invoke s wk = (Thrown e, w') -> k < fuel ->
       retrier registry fuel s d w0 = (Normal (Rejected e), w'))
  /\ (forall e w', retrier registry fuel s d w0 = (Raise e, w') ->
       invoke s w = (Thrown e, w')).
Proof.
  intros Hd. unfold retrier. rewrite Hd. split; [|split].
  - intros e w' Hs Hfuel. destruct fuel as [|fuel]; [lia|].
    cbn [subject_caller]. by rewrite Hs.
  - intros k wk e w' Hk Hpos Hs Hfuel.
    replace fuel with (k + S (fuel - S k)) by lia.
    erewrite subject_caller_rounds_thrown; [done | exact Hk | done |].
    cbn [subject_caller]. by rewrite Hs.
  - intros e w'. destruct (subject_caller s f fuel w) as [p w2] eqn:Hrun.
    destruct p as [v|r| |e']; try done. intros [= -> ->].
    by eapply subject_caller_thrown.
Qed.

(** X2. [retrier] is fulfilled only by the subject: when the promise it
    returned is fulfilled with [v], the last thing that happened is an
    attempt of the subject that was fulfilled with [v], after some number
    of rounds in which the subject failed and the controller proceeded. *)
Theorem fulfilment_is_the_subjects registry fuel s d w0 v w' :
  retrier registry fuel s d w0 = (Normal (Fulfilled v), w') ->
  exists f w k wk,
    validate registry d w0 = Normal (f, w)
    /\ rounds s f k w = Some wk
    /\ invoke s wk = (Fulfilled v, w').
Proof.
  unfold retrier. destruct (validate registry d w0) as [[f w]|e|x]; [|done..].
  destruct (subject_caller s f fuel w) as [p w2] eqn:Hrun.
  destruct p as [v1|r| |e]; try done. intros [= -> ->].
  destruct (subject_caller_fulfilled _ _ _ _ _ _ Hrun)
    as (k & wk & _ & Hk & Hs).
  by exists f, w, k, wk.
Qed.

(** X3. The loop sets no limit of its own: with a controller that always
    proceeds and a subject that always fails, every observed attempt took
    place and the chain is still pending, however many attempts are
    observed. *)
Theorem no_limit_but_the_controllers registry s d f fuel w0 w :
  validate registry d w0 = Normal (f, w) ->
  (forall err w1, (call f err w1).1 = Fulfilled ()) ->
  (forall u, exists r, (s u).1 = Rejected r) ->
  exists w',
    retrier registry fuel s d w0 = (Normal Pending, w')
    /\ attempts (log w') = attempts (log w) + fuel.
Proof.
  intros Hd Hf Hs. unfold retrier. rewrite Hd. clear Hd.
  revert w. induction fuel as [|fuel IH]; intros w.
  - exists w. simpl. split; [done | lia].
  - cbn [subject_caller]. rewrite invoke_eq.
    destruct (Hs (user w)) as [r Hr]. rewrite Hr.
    match goal with |- context [call f r ?w1] =>
      pose proof (Hf r w1) as Hp; pose proof (call_attempts f r w1) as Ha;
      destruct (call f r w1) as [p w2] end.
    cbn [fst snd log] in Hp, Ha. subst p.
    destruct (IH w2) as (w' & Hrun & Hatt).
    destruct (subject_caller s f fuel w2) as [p w3].
    destruct p as [v|r'| |e]; try done.
    injection Hrun as ->. exists w'. split; [done|].
    rewrite Hatt, Ha, attempts_app. simpl. lia.
Qed.

End LoopInversion.

(** ** The constant-delay controller, on its own and under the loop *)

Section Budget.
Context {U V E : Type}.
Implicit Types (w : @world U V E) (s : @subject U V E).
Implicit Types (registry : gmap string (@policy U V E)).
Implicit Types (x n : number) (N K k l fuel : nat) (env : timer_env).

Lemma call_each_budget l (errs : list E) : forall k w env,
  (Z.of_nat k <= 2 ^ 53)%Z ->
  store w !! l = Some env ->
  retries_remaining env = of_Z (Z.of_nat k) ->
  (call_each (TimerRetry l) errs w).1
  = replicate (min (length errs) k) (Fulfilled ()) ++ (Rejected <$> drop k errs).
Proof.
  induction errs as [|err errs IH]; intros k w env Hb Hl Hk; [by destruct k|].
  cbn [call_each]. destruct k as [|k].
  - rewrite (call_timer_aborts l err w env Hl Hk).
    specialize (IH 0 w env Hb Hl Hk).
    destruct (call_each _ errs w) as [ds w2]. cbn [fst] in *.
    rewrite IH, Nat.min_0_r. simpl. by rewrite drop_0.
  - rewrite (call_timer_proceeds l err w env Hl)
      by (rewrite Hk, num_ne0_of_Z; by destruct (Z.eqb_spec (Z.of_nat (S k)) 0)).
    match goal with |- context [call_each _ errs ?w1] =>
      specialize (IH k w1
        {| x_ms_between_retries := x_ms_between_retries env;
           n_retries := n_retries env;
           retries_remaining := num_sub1 (retries_remaining env) |});
      destruct (call_each _ errs w1) as [ds w2] end.
    cbn [fst] in *. rewrite IH; [done | lia | |].
    + simpl. apply list_lookup_insert_eq. by eapply lookup_lt_Some.
    + cbn [retries_remaining]. rewrite Hk, num_sub1_of_Z by lia. f_equal. lia.
Qed.

(** X4. A controller built for [N] retries, [N] at most 2^53, and called
    again and again, each call made once the promise of the one before has
    settled: it proceeds at the first [N] calls and rejects every later
    call with the reason that call was given. *)
Theorem budget_then_abort x N w (errs : list E) :
  (Z.of_nat N <= 2 ^ 53)%Z ->
  (call_each (constant_timer_retry x (of_Z (Z.of_nat N)) w).1 errs
             (constant_timer_retry x (of_Z (Z.of_nat N)) w).2).1
  = replicate (min (length errs) N) (Fulfilled ()) ++ (Rejected <$> drop N errs).
Proof.
  intros HN.
  eapply call_each_budget; [done | apply constant_timer_retry_env|].
  cbn [retries_remaining]. apply Math_floor_of_Z.
Qed.

Lemma subject_caller_budget s l fuel : forall k w env,
  (Z.of_nat k <= 2 ^ 53)%Z ->
  store w !! l = Some env ->
  retries_remaining env = of_Z (Z.of_nat k) ->
  attempts (log (subject_caller s (TimerRetry l) fuel w).2)
  <= attempts (log w) + (k + 1)
  /\ length (timers (log (subject_caller s (TimerRetry l) fuel w).2))
     <= length (timers (log w)) + k.
Proof.
  induction fuel as [|fuel IH]; intros k w env Hb Hl Hk; [simpl; lia|].
  cbn [subject_caller]. rewrite invoke_eq.
  destruct (s (user w)) as [[v|r| |e] u] eqn:Hs; cbn [fst snd];
    try (cbn [snd log]; rewrite attempts_app, timers_app, length_app; simpl; lia).
  match goal with |- context [call _ r ?w1] => set (wi := w1) end.
  destruct k as [|k].
  - rewrite (call_timer_aborts l r wi env Hl Hk). cbn [snd]. subst wi.
    cbn [log]. rewrite attempts_app, timers_app, length_app. simpl. lia.
  - rewrite (call_timer_proceeds l r wi env Hl)
      by (rewrite Hk, num_ne0_of_Z; by destruct (Z.eqb_spec (Z.of_nat (S k)) 0)).
    match goal with |- context [subject_caller _ _ fuel ?w2] =>
      destruct (IH k w2
        {| x_ms_between_retries := x_ms_between_retries env;
           n_retries := n_retries env;
           retries_remaining := num_sub1 (retries_remaining env) |})
        as [Ha Ht] end.
    + lia.
    + simpl. apply list_lookup_insert_eq. by eapply lookup_lt_Some.
    + cbn [retries_remaining]. rewrite Hk, num_sub1_of_Z by lia. f_equal. lia.
    + cbn [log] in Ha, Ht. subst wi. cbn [log] in Ha, Ht.
      rewrite !attempts_app in Ha. rewrite !timers_app, !length_app in Ht.
      simpl in Ha, Ht. cbn [user store log].
      by destruct (subject_caller s _ fuel _) as [[] ?]; cbn [snd] in *;
        split; lia.
Qed.

(** X5. Under a controller built for [N] retries, [N] at most 2^53, the
    subject is never invoked more than [N + 1] times and never more than
    [N] timers are set, whatever the subject does and however long the run
    is observed. *)
Theorem budget_is_never_exceeded registry s x N fuel w :
  (Z.of_nat N <= 2 ^ 53)%Z ->
  attempts (log (retrier_constant registry fuel s x (of_Z (Z.of_nat N)) w).2)
  <= attempts (log w) + (N + 1)
  /\ length
       (timers
          (log (retrier_constant registry fuel s x (of_Z (Z.of_nat N)) w).2))
     <= length (timers (log w)) + N.
Proof.
  intros HN. rewrite retrier_constant_eq. cbn [snd].
  eapply (subject_caller_budget s _ fuel N
            (constant_timer_retry x (of_Z (Z.of_nat N)) w).2);
    [done | apply constant_timer_retry_env|].
  cbn [retries_remaining]. apply Math_floor_of_Z.
Qed.

End Budget.

(** ** Whole runs under the constant-delay controller *)

Section Runs.
Context {U V E : Type}.
Implicit Types (w : @world U V E) (s : @subject U V E).
Implicit Types (registry : gmap string (@policy U V E)).
Implicit Types (x n : number) (N K k l fuel : nat) (env : timer_env).

Lemma timer_rounds_log s l k : forall w wk env,
  rounds s (TimerRetry l) k w = Some wk ->
  store w !! l = Some env ->
  log wk = log w ++ retry_events s (x_ms_between_retries env) k (user w).
Proof.
  induction k as [|k IH]; intros w wk env Hk Hl.
  - injection Hk as <-. simpl. by rewrite app_nil_r.
  - cbn [rounds] in Hk. rewrite invoke_eq in Hk.
    destruct (s (user w)) as [[v|r| |e] u] eqn:Hs; cbn [fst snd] in Hk;
      try done.
    cbn [call] in Hk. unfold timer_retry_body in Hk. cbn [store] in Hk.
    rewrite Hl in Hk. destruct (num_ne0 _); [|done].
    unfold timeout_callback in Hk. cbn [store user log] in Hk.
    rewrite Hl in Hk.
    cbn [retry_events]. rewrite Hs. cbn [fst snd].
    pose proof (IH _ _
      {| x_ms_between_retries := x_ms_between_retries env;
         n_retries := n_retries env;
         retries_remaining := num_sub1 (retries_remaining env) |} Hk) as Hlog.
    cbn [store user log x_ms_between_retries] in Hlog.
    rewrite Hlog; [by rewrite <- !app_assoc|].
    apply list_lookup_insert_eq. by eapply lookup_lt_Some.
Qed.

Lemma timer_budget_exhausts s l k fuel w env :
  (Z.of_nat k <= 2 ^ 53)%Z ->
  store w !! l = Some env ->
  retries_remaining env = of_Z (Z.of_nat k) ->
  (forall u, exists r, (s u).1 = Rejected r) ->
  k < fuel ->
  exists r w',
    subject_caller s (TimerRetry l) fuel w = (Rejected r, w')
    /\ attempts (log w') = attempts (log w) + (k + 1).
Proof.
  intros Hb Hl Hrr Hfail Hfuel.
  destruct (timer_rounds s l k w env Hl)
    as (wk & envk & Hk & _ & Hs & Hc & _ & Ha & _).
  { intros i Hi. rewrite Hrr, iter_sub1_of_Z, num_ne0_of_Z by lia.
    destruct (Z.eqb_spec (Z.of_nat k - Z.of_nat i) 0); [lia | done]. }
  { intros i _. by apply always_fails_outcome. }
  rewrite Hrr, iter_sub1_of_Z, Z.sub_diag in Hc by lia.
  destruct (Hfail (user wk)) as [r Hr].
  pose proof (invoke_eq s wk) as Hinv. rewrite Hr in Hinv.
  eexists r, _. replace fuel with (k + S (fuel - S k)) by lia.
  erewrite subject_caller_rounds;
    [| exact Hk
     | eapply subject_caller_abort; [exact Hinv | by eapply call_timer_aborts]
     | done].
  split; [done|]. cbn [log]. rewrite attempts_app, Ha. simpl. lia.
Qed.

Lemma retry_events_attempts s x k (u : U) :
  attempts (retry_events s x k u) = k.
Proof. revert u. induction k as [|k IH]; intros u; simpl; [done | by rewrite IH]. Qed.

Lemma retry_events_timers s x k (u : U) :
  timers (retry_events s x k u) = replicate k x.
Proof. revert u. induction k as [|k IH]; intros u; simpl; [done | by rewrite IH]. Qed.

(** From a counter at [k]: [K <= k] failures, then something else than a
    failure or no retry left. *)
Lemma timer_run s l k K fuel w env :
  (Z.of_nat k <= 2 ^ 53)%Z ->
  store w !! l = Some env ->
  retries_remaining env = of_Z (Z.of_nat k) ->
  K <= k ->
  (forall i, i < K -> exists r, outcome_at s i (user w) = Rejected r) ->
  (K = k \/ forall r, outcome_at s K (user w) <> Rejected r) ->
  (forall e, outcome_at s K (user w) <> Thrown e) ->
  K < fuel ->
  exists w',
    subject_caller s (TimerRetry l) fuel w = (outcome_at s K (user w), w')
    /\ log w'
       = log w ++ retry_events s (x_ms_between_retries env) K (user w)
               ++ [Attempt (outcome_at s K (user w))]
    /\ user w' = state_after s (S K) (user w).
Proof.
  intros Hb Hl Hrr HKk Hfail Hlast Hthrow Hfuel.
  destruct (timer_rounds s l K w env Hl)
    as (wk & envk & Hk & Hu & Hs & Hc & _ & _ & _).
  { intros i Hi. rewrite Hrr, iter_sub1_of_Z, num_ne0_of_Z by lia.
    destruct (Z.eqb_spec (Z.of_nat k - Z.of_nat i) 0); [lia | done]. }
  { exact Hfail. }
  pose proof (timer_rounds_log s l K w wk _ Hk Hl) as Hlog.
  rewrite Hrr, iter_sub1_of_Z in Hc by lia.
  pose proof (invoke_eq s wk) as Hinv. rewrite Hu in Hinv.
  rewrite <- state_after_succ in Hinv.
  fold (outcome_at s K (user w)) in Hinv.
  replace fuel with (K + S (fuel - S K)) by lia.
  exists {| user := state_after s (S K) (user w); store := store wk;
            log := log wk ++ [Attempt (outcome_at s K (user w))] |}.
  split; [|split].
  - eapply subject_caller_rounds; [exact Hk | | exact Hthrow].
    cbn [subject_caller]. rewrite Hinv.
    destruct (outcome_at s K (user w)) as [v|r| |e] eqn:Hout; [done| |done..].
    destruct Hlast as [->|Hlast]; [|by destruct (Hlast r)].
    rewrite Z.sub_diag in Hc.
    by erewrite call_timer_aborts; [| exact Hs | exact Hc].
  - cbn [log]. by rewrite Hlog, <- app_assoc.
  - done.
Qed.

(** X6. A run under a controller built for [N] retries, [N] at most
    2^53, when the subject fails [K <= N] times and then returns a promise
    that either does something else than fail or finds the retries used
    up: the promise of [retrier] is the promise of attempt [K + 1] itself,
    and the run consists of the [K] failed attempts, each followed by one
    timer of the floored delay, and of that last attempt, after which no
    timer is set. *)
Theorem constant_delay_run registry s x N K fuel w :
  (Z.of_nat N <= 2 ^ 53)%Z ->
  K <= N ->
  (forall i, i < K -> exists r, outcome_at s i (user w) = Rejected r) ->
  (K = N \/ forall r, outcome_at s K (user w) <> Rejected r) ->
  (forall e, outcome_at s K (user w) <> Thrown e) ->
  K < fuel ->
  exists w',
    retrier_constant registry fuel s x (of_Z (Z.of_nat N)) w
    = (Normal (outcome_at s K (user w)), w')
    /\ log w'
       = log w ++ retry_events s (Math_floor x) K (user w)
               ++ [Attempt (outcome_at s K (user w))].
Proof.
  intros HN HKN Hfail Hlast Hthrow Hfuel. rewrite retrier_constant_eq.
  pose proof (constant_timer_retry_env x (of_Z (Z.of_nat N)) w) as Henv.
  destruct (timer_run s _ N K fuel _ _ HN Henv) as (w' & Hrun & Hlog & _);
    [apply Math_floor_of_Z | done..|].
  exists w'. rewrite Hrun. cbn [fst snd]. split; [|done].
  change (user (constant_timer_retry x (of_Z (Z.of_nat N)) w).2)
    with (user w).
  by destruct (outcome_at s K (user w)) as [v|r| |e]; [..|destruct (Hthrow e)].
Qed.

(** X7. The retries of a controller are counted over all its uses: when a
    first run of [retrier] used [K] of the [N] retries, [N] at most 2^53,
    and succeeded, a second run that is given the same controller
    function, with a subject that always fails, is rejected after
    [N - K + 1] attempts. *)
Theorem shared_controller_shares_budget
    registry s1 s2 x N K v fuel1 fuel2 w f w0 :
  (Z.of_nat N <= 2 ^ 53)%Z ->
  constant_timer_retry x (of_Z (Z.of_nat N)) w = (f, w0) ->
  K <= N ->
  (forall i, i < K -> exists r, outcome_at s1 i (user w) = Rejected r) ->
  outcome_at s1 K (user w) = Fulfilled v ->
  K < fuel1 ->
  (forall u, exists r, (s2 u).1 = Rejected r) ->
  N - K < fuel2 ->
  exists w1 r w2,
    retrier registry fuel1 s1 (VFun f) w0 = (Normal (Fulfilled v), w1)
    /\ retrier registry fuel2 s2 (VFun f) w1 = (Normal (Rejected r), w2)
    /\ attempts (log w2) = attempts (log w1) + (N - K + 1).
Proof.
  intros HN [= <- <-] HKN Hfail Hok Hfuel1 Hfail2 Hfuel2.
  pose proof (constant_timer_retry_env x (of_Z (Z.of_nat N)) w) as Henv.
  set (w0 := (constant_timer_retry x (of_Z (Z.of_nat N)) w).2) in *.
  set (l := length (store w)) in *.
  destruct (timer_rounds s1 l K w0 _ Henv)
    as (wk & envk & Hk & Hu & Hs & Hc & _ & _ & _).
  { intros i Hi. apply iter_sub1_positive; lia. }
  { exact Hfail. }
  cbn [retries_remaining] in Hc.
  rewrite Math_floor_of_Z, iter_sub1_of_Z in Hc by lia.
  replace (Z.of_nat N - Z.of_nat K)%Z with (Z.of_nat (N - K)) in Hc by lia.
  pose proof (invoke_eq s1 wk) as Hinv.
  unfold outcome_at in Hok. change (user w0) with (user w) in Hu.
  rewrite Hu, Hok in Hinv.
  match type of Hinv with _ = (_, ?w1') => set (w1 := w1') in * end.
  destruct (timer_budget_exhausts s2 l (N - K) fuel2 w1 envk
              ltac:(lia) Hs Hc Hfail2 Hfuel2)
    as (r & w2 & Hrun2 & Ha2).
  exists w1, r, w2. unfold retrier. cbn [validate].
  replace fuel1 with (K + S (fuel1 - S K)) by lia.
  erewrite subject_caller_rounds;
    [| exact Hk | eapply subject_caller_success; exact Hinv | done].
  by rewrite Hrun2.
Qed.

Lemma iter_sub1_not_finite k n :
  (forall q, n <> Finite q) -> Nat.iter k num_sub1 (Math_floor n) = n.
Proof.
  intros Hn. destruct n as [|b|q]; [| |by destruct (Hn q)];
    (induction k as [|k IH]; [done | simpl in *; by rewrite IH]).
Qed.

(** X8. A retry count that is not finite, [NaN] or an infinity, is never
    used up: the controller proceeds at every call, and under [retrier] a
    subject that keeps failing is still being retried, with the same delay,
    however many attempts are observed. *)
Theorem count_not_finite_never_aborts registry x n w f w0 :
  (forall q, n <> Finite q) ->
  constant_timer_retry x n w = (f, w0) ->
  (forall errs : list E,
      (call_each f errs w0).1 = replicate (length errs) (Fulfilled ()))
  /\ (forall s fuel,
        (forall u, exists r, (s u).1 = Rejected r) ->
        exists w',
          retrier registry fuel s (VFun f) w0 = (Normal Pending, w')
          /\ attempts (log w') = attempts (log w) + fuel
          /\ timers (log w') = timers (log w) ++ replicate fuel (Math_floor x)).
Proof.
  intros Hn [= <- <-].
  pose proof (constant_timer_retry_env x n w) as Henv.
  set (w0 := (constant_timer_retry x n w).2) in *.
  set (l := length (store w)) in *.
  assert (forall i, num_ne0 (Nat.iter i num_sub1 (Math_floor n)) = true) as Hne.
  { intros i. rewrite iter_sub1_not_finite by done.
    destruct n as [|b|q]; [done | done | by destruct (Hn q)]. }
  split.
  - intros errs.
    destruct (call_each_timer l errs w0 _ Henv) as (envk & Hd & _);
      [by intros i _ | done].
  - intros s fuel Hfail.
    destruct (timer_rounds s l fuel w0 _ Henv)
      as (wk & envk & Hk & _ & _ & _ & _ & Ha & Ht).
    { by intros i _. }
    { intros i _. by apply always_fails_outcome. }
    exists wk. unfold retrier. cbn [validate].
    replace fuel with (fuel + 0) at 1 by lia.
    by erewrite subject_caller_rounds; [| exact Hk | done | done].
Qed.

End Runs.

(** ** Where the count of retries is not kept *)

Section Limits.
Context {U V E : Type}.
Implicit Types (w : @world U V E) (s : @subject U V E).
Implicit Types (x n c : number) (N K k l m fuel : nat) (env : timer_env).

(** Calls that overlap all read the counter before any of them writes
    it. *)
Lemma start_each_proceeds l (errs : list E) : forall w env,
  store w !! l = Some env ->
  num_ne0 (retries_remaining env) = true ->
  (start_each l errs w).1 = replicate (length errs) TimerSet
  /\ store (start_each l errs w).2 = store w.
Proof.
  induction errs as [|err errs IH]; intros w env Hl Hne; [done|].
  cbn [start_each]. unfold timer_retry_body. rewrite Hl, Hne.
  match goal with |- context [start_each l errs ?w1] =>
    destruct (IH w1 env Hl Hne) as [Hd Hs];
    destruct (start_each l errs w1) as [ds w2] end.
  cbn [fst snd] in *. by rewrite Hd, Hs.
Qed.

Lemma fire_each_counter l m : forall w env,
  store w !! l = Some env ->
  exists env',
    store (fire_each l m w) !! l = Some env'
    /\ retries_remaining env' = Nat.iter m num_sub1 (retries_remaining env).
Proof.
  induction m as [|m IH]; intros w env Hl; [by exists env|].
  destruct (IH w env Hl) as (env' & Hl' & Hc).
  unfold fire_each in *. rewrite Nat.iter_succ.
  unfold timeout_callback at 1. rewrite Hl'. cbn [store].
  eexists. split.
  - apply list_lookup_insert_eq. by eapply lookup_lt_Some.
  - cbn [retries_remaining]. by rewrite Hc, Nat.iter_succ.
Qed.

(** X19. Calls of one controller that overlap, each made before the timer
    of an earlier one has fired: when the controller was built for at
    least one retry, all of them set a timer, however many they are.  If
    they are more than the [N] retries, the counter has stepped over zero
    once their timers have fired, and from then on the controller
    proceeds at every call. *)
Theorem overlapping_calls_overrun x N w (errs : list E) w0 ds w1 :
  0 < N ->
  N < length errs ->
  (Z.of_nat (length errs) <= 2 ^ 53)%Z ->
  (constant_timer_retry x (of_Z (Z.of_nat N)) w).2 = w0 ->
  start_each (length (store w)) errs w0 = (ds, w1) ->
  ds = replicate (length errs) TimerSet
  /\ (exists env,
        store (fire_each (length (store w)) (length errs) w1)
          !! length (store w) = Some env
        /\ retries_remaining env
           = of_Z (Z.of_nat N - Z.of_nat (length errs)))
  /\ (forall errs' : list E,
        (call_each (TimerRetry (length (store w))) errs'
           (fire_each (length (store w)) (length errs) w1)).1
        = replicate (length errs') (Fulfilled ())).
Proof.
  intros HN Hm Hb <- Hstart.
  pose proof (constant_timer_retry_env x (of_Z (Z.of_nat N)) w) as Henv.
  set (w0 := (constant_timer_retry x (of_Z (Z.of_nat N)) w).2) in *.
  set (l := length (store w)) in *.
  rewrite Math_floor_of_Z in Henv.
  destruct (start_each_proceeds l errs w0 _ Henv) as [Hd Hs].
  { cbn [retries_remaining]. rewrite num_ne0_of_Z.
    destruct (Z.eqb_spec (Z.of_nat N) 0); [lia | done]. }
  rewrite Hstart in Hd, Hs. cbn [fst snd] in Hd, Hs.
  rewrite <- Hs in Henv.
  destruct (fire_each_counter l (length errs) w1 _ Henv) as (env & Hl & Hc).
  cbn [retries_remaining] in Hc. rewrite iter_sub1_of_Z in Hc by lia.
  split; [done|]. split; [by exists env|]. intros errs'.
  destruct (call_each_timer l errs' _ _ Hl) as (envk & Hds & _); [|done].
  intros i _. apply num_negative_ne0, iter_sub1_stays_negative.
  rewrite Hc. unfold of_Z. apply num_negative_Finite.
  rewrite <- (Zlt_Qlt _ 0). lia.
Qed.

End Limits.

(** ** What the validation accepts and what it throws *)

Section Validation.
Context {U V E : Type}.
Implicit Types (w : @world U V E) (s : @subject U V E) (f : @func U E).
Implicit Types (registry : gmap string (@policy U V E)).
Implicit Types (d args v : @value U E) (name key ty : string).
Implicit Types (declared before rest : list (string * string)).

Lemma collect_args_mistyped name args before key ty rest v : forall arg_vals,
  forallb (accepted args) before = true ->
  own_property args key = Some v ->
  truthy v = true ->
  typeof v <> ty ->
  collect_args name args (before ++ (key, ty) :: rest) arg_vals
  = Throw (IncorrectType name key (typeof v) ty).
Proof.
  induction before as [|[key' ty'] before IH]; intros arg_vals Hall Hv Ht Hty.
  - cbn [app collect_args]. rewrite (get_prop_own _ _ _ Hv).
    cbn [mbind completion_bind]. rewrite Ht.
    by apply String.eqb_neq in Hty as ->.
  - cbn [forallb] in Hall. apply andb_true_iff in Hall as [Hhd Hall].
    unfold accepted in Hhd. cbn [fst snd] in Hhd.
    destruct (own_property args key') as [v'|] eqn:Hv'; [|done].
    apply andb_true_iff in Hhd as [Ht' Hty'].
    cbn [app collect_args]. rewrite (get_prop_own _ _ _ Hv').
    cbn [mbind completion_bind]. rewrite Ht', Hty'. cbn [negb]. by apply IH.
Qed.

(** X9. A mapping with one key that is not a registered name makes
    [retrier] throw before anything else happens, whatever the value under
    the key.  It throws the error of line 32 with that key, unless the key
    is a name that every object inherits, such as [toString] or
    [constructor]: the test of line 31 finds the inherited member, and
    line 35 throws a [TypeError]. *)
Theorem unregistered_name_throws registry fuel s name args w :
  registry !! name = None ->
  retrier registry fuel s (VObj {[ name := args ]}) w
  = (Throw (if inherited name then TypeError else NoSuchPredefined name), w).
Proof.
  intros Hreg. unfold retrier. cbn [validate].
  rewrite map_to_list_singleton, Hreg. by destruct (inherited name).
Qed.

(** X10. The declared parameters are checked in declared order and the
    first that fails decides the error: when those before it are accepted
    and its value is truthy but of another type than declared, [retrier]
    throws the error of line 41 with the policy, the key, the type found
    and the type declared. *)
Theorem first_mistyped_parameter_is_reported
    registry fuel s name args entry before key ty rest v w :
  registry !! name = Some entry ->
  params entry = before ++ (key, ty) :: rest ->
  forallb (accepted args) before = true ->
  own_property args key = Some v ->
  truthy v = true ->
  typeof v <> ty ->
  retrier registry fuel s (VObj {[ name := args ]}) w
  = (Throw (IncorrectType name key (typeof v) ty), w).
Proof.
  intros Hreg Hpar Hall Hv Ht Hty. unfold retrier. cbn [validate].
  rewrite map_to_list_singleton, Hreg, Hpar.
  by rewrite (collect_args_mistyped _ _ _ _ _ _ v).
Qed.


(** X12. For a registered name, when every declared parameter is an own
    property of the parameter object with a truthy value of the declared
    type, the validation succeeds, and what it returns is the constructor
    applied to these values, in declared order. *)
Theorem accepted_parameters_resolve registry name args entry w :
  registry !! name = Some entry ->
  forallb (accepted args) (params entry) = true ->
  validate registry (VObj {[ name := args ]}) w
  = Normal (fn entry (declared_values args (params entry)) w).
Proof. apply validate_registered. Qed.

(** X13. With [null] or [undefined] as parameter object, a policy that
    declares a parameter cannot be resolved, the read of line 37 throws;
    a policy that declares none is constructed, with no argument. *)
Theorem null_parameter_object registry name args entry w :
  registry !! name = Some entry ->
  args = VNull \/ args = VUndefined ->
  validate registry (VObj {[ name := args ]}) w
  = match params entry with
    | [] => Normal (fn entry [] w)
    | _ :: _ => Throw TypeError
    end.
Proof.
  intros Hreg Hargs. cbn [validate]. rewrite map_to_list_singleton, Hreg.
  destruct (params entry) as [|[key ty] rest]; [done|].
  by destruct Hargs as [-> | ->].
Qed.

(** X14. A descriptor that is neither a function nor a mapping with one
    key makes [retrier] throw before anything else happens: the error of
    line 52, except for [null], on which [Object.keys] throws. *)
Theorem wrong_shape_is_invalid registry fuel s d w :
  wrong_shape d = true ->
  retrier registry fuel s d w
  = (Throw match d with VNull => TypeError | _ => InvalidParameters end, w).
Proof.
  intros Hshape. unfold retrier.
  destruct d as [| | | | |props|]; try done.
  simpl in Hshape. apply negb_true_iff, Nat.eqb_neq in Hshape.
  by rewrite validate_keys.
Qed.

(** X15. With truthy numbers, the descriptor of line 145 and the call of
    line 142 are the same thing to [retrier], whatever further keys the
    parameter object holds: same controller, same run. *)
Theorem descriptor_is_the_direct_call extra (x n : number) fuel s w :
  truthy (VNum x : @value U E) = true ->
  truthy (VNum n : @value U E) = true ->
  retrier retry_fn fuel s (descriptor_with extra (VNum x) (VNum n)) w
  = retrier_constant retry_fn fuel s x n w.
Proof.
  intros Hx Hn. unfold retrier_constant, retrier at 1.
  by rewrite descriptor_resolves.
Qed.

End Validation.

(** ** The demonstration *)

Section Demonstration.
Import Demo.
Implicit Types (st : state) (k K fuel : nat) (draws : nat -> Q).

Lemma for_retrying_high st :
  (one_tenth <= random st (drawn st))%Q ->
  for_retrying st
  = (Rejected "Random resolve fail.",
     {| random := random st; drawn := S (drawn st);
        console := console st ++ [TestRejects (random st (drawn st))] |}).
Proof.
  intros Hhigh. unfold for_retrying.
  destruct (random st (drawn st) ?= one_tenth)%Q eqn:Hcmp; try done.
  apply Qlt_alt in Hcmp. by apply Qlt_not_le in Hcmp.
Qed.

Lemma for_retrying_low st :
  (random st (drawn st) < one_tenth)%Q ->
  for_retrying st
  = (Fulfilled (random st (drawn st)),
     {| random := random st; drawn := S (drawn st);
        console := console st ++ [TestResolves] |}).
Proof.
  intros Hlow. unfold for_retrying.
  destruct (random st (drawn st) ?= one_tenth)%Q eqn:Hcmp; [|done|].
  - apply Qeq_alt in Hcmp. rewrite Hcmp in Hlow. by apply Qlt_irrefl in Hlow.
  - apply Qgt_alt in Hcmp. destruct (Qlt_irrefl one_tenth).
    by eapply Qlt_trans.
Qed.

Lemma for_retrying_state_after k : forall st,
  (forall i, i < k -> (one_tenth <= random st (drawn st + i))%Q) ->
  state_after for_retrying k st
  = {| random := random st; drawn := drawn st + k;
       console := console st
                  ++ ((fun i => TestRejects (random st i)) <$> seq (drawn st) k) |}.
Proof.
  induction k as [|k IH]; intros st Hhigh.
  - destruct st. simpl. by rewrite Nat.add_0_r, app_nil_r.
  - cbn [state_after]. rewrite for_retrying_high
      by (specialize (Hhigh 0 ltac:(lia)); by rewrite Nat.add_0_r in Hhigh).
    cbn [snd]. rewrite IH; cbn [random drawn console].
    + f_equal; [lia|]. by rewrite <- app_assoc.
    + intros i Hi. specialize (Hhigh (S i) ltac:(lia)).
      by replace (S (drawn st) + i) with (drawn st + S i) by lia.
Qed.

Lemma for_retrying_fails draws K i :
  (forall i, i < K -> (one_tenth <= draws i)%Q) ->
  i < K ->
  outcome_at for_retrying i (user (boot draws))
  = Rejected "Random resolve fail.".
Proof.
  intros Hhigh Hi. unfold outcome_at.
  rewrite for_retrying_state_after
    by (intros j Hj; apply Hhigh; simpl; lia).
  rewrite for_retrying_high; [done|]. apply Hhigh. simpl. lia.
Qed.

Lemma main_retrier fuel (w : @world state Q string) :
  retrier retry_fn fuel for_retrying
    (descriptor (VNum time_between) (VNum num_retries)) w
  = (returned (subject_caller for_retrying (TimerRetry (length (store w))) fuel
                 (constant_timer_retry time_between num_retries w).2).1,
     (subject_caller for_retrying (TimerRetry (length (store w))) fuel
        (constant_timer_retry time_between num_retries w).2).2).
Proof.
  unfold retrier, descriptor. rewrite descriptor_resolves by done.
  cbn [constant_timer_retry snd]. by destruct (subject_caller _ _ _ _).
Qed.

(** X16. The demonstration, whatever [Math.random] returns: when the first
    draw below 0.1 is one of the first four, say draw [K + 1], the subject
    is invoked [K + 1] times with [K] timers of 2000 in between, the promise
    is fulfilled with that draw, and the console shows the [K] rejections,
    the success and the final value. *)
Theorem demonstration_succeeds draws K fuel :
  K <= 3 ->
  (forall i, i < K -> (one_tenth <= draws i)%Q) ->
  (draws K < one_tenth)%Q ->
  K < fuel ->
  exists w',
    main fuel (boot draws) = (Normal (Fulfilled (draws K)), w')
    /\ console (user w')
       = rejections draws K ++ [TestResolves; FinalValue (draws K)]
    /\ attempts (log w') = K + 1
    /\ timers (log w') = replicate K (of_Z 2000).
Proof.
  intros HK Hhigh Hlow Hfuel. unfold main. rewrite main_retrier.
  assert (outcome_at for_retrying K (user (boot draws)) = Fulfilled (draws K))
    as Hout.
  { unfold outcome_at. rewrite for_retrying_state_after by done.
    by rewrite for_retrying_low. }
  destruct (timer_run for_retrying (length (store (boot draws))) 3 K fuel
              (constant_timer_retry time_between num_retries (boot draws)).2 _
              ltac:(lia) (constant_timer_retry_env _ _ _))
    as (w' & Hrun & Hlog & Hu); [done | lia | | | | done |].
  { intros i Hi. eexists. by eapply for_retrying_fails. }
  { right. intros r. cbn [constant_timer_retry snd user]. by rewrite Hout. }
  { intros e. cbn [constant_timer_retry snd user]. by rewrite Hout. }
  change (user (constant_timer_retry time_between num_retries (boot draws)).2)
    with (user (boot draws)) in Hrun, Hlog, Hu.
  rewrite Hout in Hrun, Hlog. rewrite Hrun. cbn [fst snd returned].
  cbn [x_ms_between_retries constant_timer_retry snd log boot app] in Hlog.
  eexists. split; [done|]. cbn [print user console log].
  rewrite Hu, Hlog.
  rewrite state_after_succ, for_retrying_state_after
    by (intros i Hi; by apply Hhigh).
  rewrite for_retrying_low by done. cbn [snd console random drawn boot user].
  unfold time_between. rewrite Math_floor_of_Z.
  repeat split.
  - unfold rejections. by rewrite <- app_assoc.
  - rewrite attempts_app, retry_events_attempts. simpl. lia.
  - rewrite timers_app, retry_events_timers. simpl. by rewrite app_nil_r.
Qed.

(** X17. The demonstration, when the first four draws are all at least
    0.1: the subject is invoked exactly four times with three timers of
    2000 in between, the promise is rejected with the error of line 113,
    and the console shows the four rejections and the line that gives
    up. *)
Theorem demonstration_gives_up draws fuel :
  (forall i, i < 4 -> (one_tenth <= draws i)%Q) ->
  3 < fuel ->
  exists w',
    main fuel (boot draws) = (Normal (Rejected "Random resolve fail."), w')
    /\ console (user w')
       = rejections draws 4
         ++ [FinalGivenUp (of_Z 3) "Error: Random resolve fail."]
    /\ attempts (log w') = 4
    /\ timers (log w') = replicate 3 (of_Z 2000).
Proof.
  intros Hhigh Hfuel. unfold main. rewrite main_retrier.
  assert (outcome_at for_retrying 3 (user (boot draws))
          = Rejected "Random resolve fail.") as Hout
    by (apply (for_retrying_fails draws 4); [exact Hhigh | lia]).
  destruct (timer_run for_retrying (length (store (boot draws))) 3 3 fuel
              (constant_timer_retry time_between num_retries (boot draws)).2 _
              ltac:(lia) (constant_timer_retry_env _ _ _))
    as (w' & Hrun & Hlog & Hu); [done | lia | | by left | | done |].
  { intros i Hi. eexists. eapply for_retrying_fails; [exact Hhigh | lia]. }
  { intros e. cbn [constant_timer_retry snd user]. by rewrite Hout. }
  change (user (constant_timer_retry time_between num_retries (boot draws)).2)
    with (user (boot draws)) in Hrun, Hlog, Hu.
  rewrite Hout in Hrun, Hlog. rewrite Hrun. cbn [fst snd returned].
  cbn [x_ms_between_retries constant_timer_retry snd log boot app] in Hlog.
  eexists. split; [done|]. cbn [print user console log].
  rewrite Hu, Hlog.
  rewrite for_retrying_state_after by (intros i Hi; by apply Hhigh).
  cbn [console random drawn boot user].
  unfold time_between. rewrite Math_floor_of_Z.
  repeat split.
Qed.

End Demonstration.

(** ** The further properties at sample callers *)

Lemma rejection_has_a_cause_witness :
  retrier retry_fn 5 Sample.always_fails (VFun Sample.until_two) Sample.start
  = (Normal (Rejected 7), Sample.failed_thrice)
  /\ exists f w k wk,
       validate retry_fn (VFun Sample.until_two) Sample.start = Normal (f, w)
       /\ rounds Sample.always_fails f k w = Some wk
       /\ ((exists R w1,
              invoke Sample.always_fails wk = (Rejected R, w1)
              /\ (call f R w1 = (Rejected 7, Sample.failed_thrice)
                  \/ call f R w1 = (Thrown 7, Sample.failed_thrice)))
           \/ (0 < k
               /\ invoke Sample.always_fails wk
                  = (Thrown 7, Sample.failed_thrice))).
Proof.
  split; [reflexivity|].
  apply (rejection_has_a_cause retry_fn 5 Sample.always_fails
           (VFun Sample.until_two) Sample.start 7 Sample.failed_thrice).
  reflexivity.
Defined.

Lemma subject_that_throws_witness :
  validate retry_fn (VFun Cases.always_proceeds) Sample.start
  = Normal (Cases.always_proceeds, Sample.start)
  /\ (forall e w',
        invoke (Sample.fails_then_throws 1) Sample.start = (Thrown e, w') ->
        0 < 5 ->
        retrier retry_fn 5 (Sample.fails_then_throws 1)
                (VFun Cases.always_proceeds) Sample.start
        = (Raise e, w'))
  /\ (forall k wk e w',
        rounds (Sample.fails_then_throws 1) Cases.always_proceeds k
               Sample.start = Some wk ->
        0 < k ->
        invoke (Sample.fails_then_throws 1) wk = (Thrown e, w') ->
        k < 5 ->
        retrier retry_fn 5 (Sample.fails_then_throws 1)
                (VFun Cases.always_proceeds) Sample.start
        = (Normal (Rejected e), w'))
  /\ (forall e w',
        retrier retry_fn 5 (Sample.fails_then_throws 1)
                (VFun Cases.always_proceeds) Sample.start
        = (Raise e, w') ->
        invoke (Sample.fails_then_throws 1) Sample.start = (Thrown e, w')).
Proof.
  split; [reflexivity|].
  apply (subject_that_throws retry_fn 5 (Sample.fails_then_throws 1)
           (VFun Cases.always_proceeds) Cases.always_proceeds Sample.start
           Sample.start).
  reflexivity.
Defined.

Lemma fulfilment_is_the_subjects_witness :
  retrier retry_fn 5 (Sample.fails_then_succeeds 2) (VFun Sample.until_two)
          Sample.start
  = (Normal (Fulfilled 2),
     {| user := 3; store := [];
        log := [Attempt (Rejected 0); Attempt (Rejected 1);
                Attempt (Fulfilled 2)] |})
  /\ exists f w k wk,
       validate retry_fn (VFun Sample.until_two) Sample.start = Normal (f, w)
       /\ rounds (Sample.fails_then_succeeds 2) f k w = Some wk
       /\ invoke (Sample.fails_then_succeeds 2) wk
          = (Fulfilled 2,
             {| user := 3; store := [];
                log := [Attempt (Rejected 0); Attempt (Rejected 1);
                        Attempt (Fulfilled 2)] |}).
Proof.
  split; [reflexivity|].
  apply (fulfilment_is_the_subjects retry_fn 5 (Sample.fails_then_succeeds 2)
           (VFun Sample.until_two) Sample.start 2).
  reflexivity.
Defined.

Lemma no_limit_but_the_controllers_witness :
  validate retry_fn (VFun Cases.always_proceeds) Sample.start
  = Normal (Cases.always_proceeds, Sample.start)
  /\ (forall err (w1 : @world nat nat nat),
        (call Cases.always_proceeds err w1).1 = Fulfilled ())
  /\ (forall u, exists r, (Sample.always_fails u).1 = Rejected r)
  /\ exists w',
       retrier retry_fn 6 Sample.always_fails (VFun Cases.always_proceeds)
               Sample.start
       = (Normal Pending, w')
       /\ attempts (log w') = attempts (log Sample.start) + 6.
Proof.
  assert (forall (err : nat) (w1 : @world nat nat nat),
            (call Cases.always_proceeds err w1).1 = Fulfilled ()) as Hf
    by (intros err w1; reflexivity).
  assert (forall u, exists r, (Sample.always_fails u).1 = Rejected r) as Hs
    by (intros u; exists u; reflexivity).
  split; [reflexivity|]. split; [exact Hf|]. split; [exact Hs|].
  apply (no_limit_but_the_controllers retry_fn Sample.always_fails
           (VFun Cases.always_proceeds) Cases.always_proceeds 6 Sample.start
           Sample.start); [reflexivity | exact Hf | exact Hs].
Defined.

Lemma budget_then_abort_witness :
  (Z.of_nat 2 <= 2 ^ 53)%Z
  /\ (call_each (constant_timer_retry (of_Z 20) (of_Z (Z.of_nat 2))
                  Sample.start).1 [5; 6; 7; 8]
                (constant_timer_retry (of_Z 20) (of_Z (Z.of_nat 2))
                   Sample.start).2).1
     = replicate (min (length [5; 6; 7; 8]) 2) (Fulfilled ())
       ++ (Rejected <$> drop 2 [5; 6; 7; 8]).
Proof.
  split; [lia|].
  apply (budget_then_abort (of_Z 20) 2 Sample.start [5; 6; 7; 8]). lia.
Defined.

Lemma budget_is_never_exceeded_witness :
  (Z.of_nat 2 <= 2 ^ 53)%Z
  /\ attempts
       (log (retrier_constant retry_fn 9 Sample.always_fails (of_Z 20)
               (of_Z (Z.of_nat 2)) Sample.start).2)
     <= attempts (log Sample.start) + (2 + 1)
  /\ length
       (timers
          (log (retrier_constant retry_fn 9 Sample.always_fails (of_Z 20)
                  (of_Z (Z.of_nat 2)) Sample.start).2))
     <= length (timers (log Sample.start)) + 2.
Proof.
  split; [lia|].
  apply (budget_is_never_exceeded retry_fn Sample.always_fails (of_Z 20) 2 9
           Sample.start).
  lia.
Defined.

Lemma overlapping_calls_overrun_witness :
  0 < 1
  /\ 1 < length [5; 6]
  /\ (Z.of_nat (length [5; 6]) <= 2 ^ 53)%Z
  /\ start_each (length (store Sample.start)) [5; 6]
       (constant_timer_retry (of_Z 20) (of_Z (Z.of_nat 1)) Sample.start).2
     = ([TimerSet; TimerSet], Cases.two_calls_started)
  /\ [TimerSet; TimerSet] = replicate (length [5; 6]) (@TimerSet nat)
  /\ (exists env,
        store
          (fire_each (length (store Sample.start)) (length [5; 6])
             Cases.two_calls_started)
          !! length (store Sample.start) = Some env
        /\ retries_remaining env
           = of_Z (Z.of_nat 1 - Z.of_nat (length [5; 6])))
  /\ (forall errs' : list nat,
        (call_each (TimerRetry (length (store Sample.start))) errs'
           (fire_each (length (store Sample.start)) (length [5; 6])
              Cases.two_calls_started)).1
        = replicate (length errs') (Fulfilled ())).
Proof.
  split; [lia|]. split; [simpl; lia|]. split; [simpl; lia|].
  split; [reflexivity|].
  apply (overlapping_calls_overrun (of_Z 20) 1 Sample.start [5; 6]
           (constant_timer_retry (of_Z 20) (of_Z (Z.of_nat 1)) Sample.start).2);
    [lia | simpl; lia | simpl; lia | reflexivity | reflexivity].
Defined.

Lemma constant_delay_run_witness :
  (Z.of_nat 3 <= 2 ^ 53)%Z
  /\ 2 <= 3
  /\ (forall i, i < 2 ->
        exists r, outcome_at (Sample.fails_then_succeeds 2) i
                    (user Sample.start) = Rejected r)
  /\ (2 = 3 \/ forall r, outcome_at (Sample.fails_then_succeeds 2) 2
                           (user Sample.start) <> Rejected r)
  /\ (forall e, outcome_at (Sample.fails_then_succeeds 2) 2
                  (user Sample.start) <> Thrown e)
  /\ 2 < 3
  /\ exists w',
       retrier_constant retry_fn 3 (Sample.fails_then_succeeds 2)
                        (Finite (201 # 2)) (of_Z (Z.of_nat 3)) Sample.start
       = (Normal (outcome_at (Sample.fails_then_succeeds 2) 2
                    (user Sample.start)), w')
       /\ log w'
          = log Sample.start
            ++ retry_events (Sample.fails_then_succeeds 2)
                 (Math_floor (Finite (201 # 2))) 2 (user Sample.start)
            ++ [Attempt (outcome_at (Sample.fails_then_succeeds 2) 2
                           (user Sample.start))].
Proof.
  assert (forall i, i < 2 ->
            exists r, outcome_at (Sample.fails_then_succeeds 2) i
                        (user Sample.start) = Rejected r) as Hfail.
  { intros [|[|i]] Hi; [by exists 0 | by exists 1 | lia]. }
  assert (2 = 3 \/ forall r, outcome_at (Sample.fails_then_succeeds 2) 2
                               (user Sample.start) <> Rejected r) as Hlast
    by (right; intros r; discriminate).
  assert (forall e, outcome_at (Sample.fails_then_succeeds 2) 2
                      (user Sample.start) <> Thrown e) as Hthrow
    by (intros e; discriminate).
  split; [lia|]. split; [lia|]. split; [exact Hfail|]. split; [exact Hlast|].
  split; [exact Hthrow|]. split; [lia|].
  apply (constant_delay_run retry_fn (Sample.fails_then_succeeds 2)
           (Finite (201 # 2)) 3 2 3 Sample.start);
    [lia | lia | exact Hfail | exact Hlast | exact Hthrow | lia].
Defined.

Lemma shared_controller_shares_budget_witness :
  exists w1 r w2,
    retrier retry_fn 3 (Sample.fails_then_succeeds 2)
            (VFun Sample.resolved_once.1) Sample.resolved_once.2
    = (Normal (Fulfilled 2), w1)
    /\ retrier retry_fn 2 Sample.always_fails
               (VFun Sample.resolved_once.1) w1
       = (Normal (Rejected r), w2)
    /\ attempts (log w2) = attempts (log w1) + (3 - 2 + 1).
Proof.
  apply (shared_controller_shares_budget retry_fn
           (Sample.fails_then_succeeds 2) Sample.always_fails (of_Z 100)
           3 2 2 3 2 Sample.start Sample.resolved_once.1
           Sample.resolved_once.2).
  - lia.
  - reflexivity.
  - lia.
  - intros [|[|i]] Hi; [by exists 0 | by exists 1 | lia].
  - reflexivity.
  - lia.
  - intros u. exists u. reflexivity.
  - lia.
Defined.

Lemma count_not_finite_never_aborts_witness :
  (forall q, NaN <> Finite q)
  /\ (forall errs : list nat,
        (call_each (TimerRetry 0) errs
           (constant_timer_retry (of_Z 10) NaN Sample.start).2).1
        = replicate (length errs) (Fulfilled ()))
  /\ (forall (s : @subject nat nat nat) fuel,
        (forall u, exists r, (s u).1 = Rejected r) ->
        exists w',
          retrier retry_fn fuel s (VFun (TimerRetry 0))
            (constant_timer_retry (of_Z 10) NaN Sample.start).2
          = (Normal Pending, w')
          /\ attempts (log w') = attempts (log Sample.start) + fuel
          /\ timers (log w')
             = timers (log Sample.start)
               ++ replicate fuel (Math_floor (of_Z 10))).
Proof.
  assert (forall q, NaN <> Finite q) as Hn by (intros q; discriminate).
  split; [exact Hn|].
  apply (count_not_finite_never_aborts retry_fn (of_Z 10) NaN Sample.start
           (TimerRetry 0)
           (constant_timer_retry (of_Z 10) NaN Sample.start).2 Hn).
  reflexivity.
Defined.

Lemma unregistered_name_throws_witness :
  (@retry_fn nat nat nat) !! "exponential_backoff" = None
  /\ (@retry_fn nat nat nat) !! "toString" = None
  /\ retrier retry_fn 4 Sample.always_fails
             (VObj {[ "exponential_backoff" := VNull ]}) Sample.start
     = (Throw (NoSuchPredefined "exponential_backoff"), Sample.start)
  /\ retrier retry_fn 4 Sample.always_fails
             (VObj {[ "toString" := VNull ]}) Sample.start
     = (Throw TypeError, Sample.start).
Proof.
  assert ((@retry_fn nat nat nat) !! "exponential_backoff" = None) as Hreg
    by (vm_compute; reflexivity).
  assert ((@retry_fn nat nat nat) !! "toString" = None) as Hreg'
    by (vm_compute; reflexivity).
  split; [exact Hreg|]. split; [exact Hreg'|]. split.
  - apply (unregistered_name_throws retry_fn 4 Sample.always_fails
             "exponential_backoff" VNull Sample.start Hreg).
  - apply (unregistered_name_throws retry_fn 4 Sample.always_fails
             "toString" VNull Sample.start Hreg').
Defined.

Lemma first_mistyped_parameter_is_reported_witness :
  retry_fn !! "constant_timer_retry" = Some Cases.constant_timer_entry
  /\ forallb (accepted (VObj (Cases.hundred_and (VStr "3"))))
             [ ("x_ms_between_retries", "number") ] = true
  /\ own_property (VObj (Cases.hundred_and (VStr "3"))) "n_retries"
     = Some (VStr "3")
  /\ retrier retry_fn 4 Sample.always_fails
             (VObj {[ "constant_timer_retry" :=
                        VObj (Cases.hundred_and (VStr "3")) ]})
             Sample.start
     = (Throw (IncorrectType "constant_timer_retry" "n_retries"
                             "string" "number"),
        Sample.start).
Proof.
  assert (retry_fn !! "constant_timer_retry" = Some Cases.constant_timer_entry)
    as Hreg by (vm_compute; reflexivity).
  assert (forallb (accepted (VObj (Cases.hundred_and (VStr "3"))))
                  [ ("x_ms_between_retries", "number") ] = true) as Hall
    by (vm_compute; reflexivity).
  assert (own_property (VObj (Cases.hundred_and (VStr "3"))) "n_retries"
          = Some (VStr "3")) as Hv by (vm_compute; reflexivity).
  split; [exact Hreg|]. split; [exact Hall|]. split; [exact Hv|].
  apply (first_mistyped_parameter_is_reported retry_fn 4 Sample.always_fails
           "constant_timer_retry" (VObj (Cases.hundred_and (VStr "3")))
           Cases.constant_timer_entry
           [ ("x_ms_between_retries", "number") ] "n_retries" "number" []
           (VStr "3") Sample.start Hreg eq_refl Hall Hv eq_refl).
  discriminate.
Defined.


Lemma accepted_parameters_resolve_witness :
  retry_fn !! "constant_timer_retry" = Some Cases.constant_timer_entry
  /\ forallb (accepted (VObj (Cases.hundred_and (VNum (of_Z 3)))))
             (params Cases.constant_timer_entry) = true
  /\ validate retry_fn
       (VObj {[ "constant_timer_retry" :=
                  VObj (Cases.hundred_and (VNum (of_Z 3))) ]})
       Sample.start
     = Normal
         (fn Cases.constant_timer_entry
             (declared_values (VObj (Cases.hundred_and (VNum (of_Z 3))))
                              (params Cases.constant_timer_entry))
             Sample.start).
Proof.
  assert (retry_fn !! "constant_timer_retry" = Some Cases.constant_timer_entry)
    as Hreg by (vm_compute; reflexivity).
  assert (forallb (accepted (VObj (Cases.hundred_and (VNum (of_Z 3)))))
                  (params Cases.constant_timer_entry) = true) as Hall
    by (vm_compute; reflexivity).
  split; [exact Hreg|]. split; [exact Hall|].
  apply (accepted_parameters_resolve retry_fn "constant_timer_retry"
           (VObj (Cases.hundred_and (VNum (of_Z 3))))
           Cases.constant_timer_entry Sample.start Hreg Hall).
Defined.

Lemma null_parameter_object_witness :
  retry_fn !! "constant_timer_retry" = Some Cases.constant_timer_entry
  /\ Cases.two_policies !! "forever"
     = Some {| fn := fun _ w => (Cases.always_proceeds, w); params := [] |}
  /\ validate retry_fn (VObj {[ "constant_timer_retry" := VNull ]})
              Sample.start
     = Throw TypeError
  /\ validate Cases.two_policies (VObj {[ "forever" := VNull ]}) Sample.start
     = Normal (Cases.always_proceeds, Sample.start).
Proof.
  assert (retry_fn !! "constant_timer_retry" = Some Cases.constant_timer_entry)
    as Hreg by (vm_compute; reflexivity).
  assert (Cases.two_policies !! "forever"
          = Some {| fn := fun _ w => (Cases.always_proceeds, w);
                    params := [] |}) as Hreg2
    by (vm_compute; reflexivity).
  split; [exact Hreg|]. split; [exact Hreg2|]. split.
  - apply (null_parameter_object retry_fn "constant_timer_retry" VNull
             Cases.constant_timer_entry Sample.start Hreg).
    left. reflexivity.
  - apply (null_parameter_object Cases.two_policies "forever" VNull _
             Sample.start Hreg2).
    left. reflexivity.
Defined.

Lemma wrong_shape_is_invalid_witness :
  wrong_shape (VObj (∅ : gmap string (@value nat nat))) = true
  /\ retrier retry_fn 4 Sample.always_fails (VObj ∅) Sample.start
     = (Throw InvalidParameters, Sample.start).
Proof.
  split; [reflexivity|].
  apply (wrong_shape_is_invalid retry_fn 4 Sample.always_fails (VObj ∅)
           Sample.start).
  reflexivity.
Defined.

Lemma descriptor_is_the_direct_call_witness :
  truthy (VNum (Finite (5 # 2)) : @value nat nat) = true
  /\ truthy (VNum (of_Z 3) : @value nat nat) = true
  /\ retrier retry_fn 4 Sample.always_fails
             (descriptor_with {[ "verbose" := VBool true ]}
                              (VNum (Finite (5 # 2))) (VNum (of_Z 3)))
             Sample.start
     = retrier_constant retry_fn 4 Sample.always_fails (Finite (5 # 2))
                        (of_Z 3) Sample.start.
Proof.
  split; [reflexivity|]. split; [reflexivity|].
  apply (descriptor_is_the_direct_call {[ "verbose" := VBool true ]}
           (Finite (5 # 2)) (of_Z 3) 4 Sample.always_fails Sample.start);
    reflexivity.
Defined.

Lemma demonstration_succeeds_witness :
  2 <= 3
  /\ (forall i, i < 2 -> (Demo.one_tenth <= Cases.third_draw_low i)%Q)
  /\ (Cases.third_draw_low 2 < Demo.one_tenth)%Q
  /\ 2 < 3
  /\ exists w',
       Demo.main 3 (Demo.boot Cases.third_draw_low)
       = (Normal (Fulfilled (Cases.third_draw_low 2)), w')
       /\ Demo.console (user w')
          = Demo.rejections Cases.third_draw_low 2
            ++ [Demo.TestResolves; Demo.FinalValue (Cases.third_draw_low 2)]
       /\ attempts (log w') = 2 + 1
       /\ timers (log w') = replicate 2 (of_Z 2000).
Proof.
  assert (forall i, i < 2 -> (Demo.one_tenth <= Cases.third_draw_low i)%Q)
    as Hhigh.
  { intros [|[|i]] Hi; [vm_compute; discriminate | vm_compute; discriminate | lia]. }
  assert (Cases.third_draw_low 2 < Demo.one_tenth)%Q as Hlow
    by (vm_compute; reflexivity).
  split; [lia|]. split; [exact Hhigh|]. split; [exact Hlow|]. split; [lia|].
  apply (demonstration_succeeds Cases.third_draw_low 2 3);
    [lia | exact Hhigh | exact Hlow | lia].
Defined.

Lemma demonstration_gives_up_witness :
  (forall i, i < 4 -> (Demo.one_tenth <= Cases.all_draws_high i)%Q)
  /\ 3 < 4
  /\ exists w',
       Demo.main 4 (Demo.boot Cases.all_draws_high)
       = (Normal (Rejected "Random resolve fail."), w')
       /\ Demo.console (user w')
          = Demo.rejections Cases.all_draws_high 4
            ++ [Demo.FinalGivenUp (of_Z 3) "Error: Random resolve fail."]
       /\ attempts (log w') = 4
       /\ timers (log w') = replicate 3 (of_Z 2000).
Proof.
  assert (forall i, i < 4 -> (Demo.one_tenth <= Cases.all_draws_high i)%Q)
    as Hhigh by (intros i _; vm_compute; discriminate).
  split; [exact Hhigh|]. split; [lia|].
  apply (demonstration_gives_up Cases.all_draws_high 4); [exact Hhigh | lia].
Defined.
